(** * The [Input] facade of the integration-test components

    A shallow embedding of [pkg/integration/components/input.go]: the
    facade that turns the intents of a scenario (confirm, type a text,
    switch to a panel, navigate to a list item, answer a modal) into key
    presses sent to the GUI driver, interleaved with assertions.

    The facade is effectful: it sleeps, presses keys, reads the focused
    view and calls assertions that abort the test.  The embedding threads
    an explicit world (the state of the application under test and the
    chronological trace of the calls made on it) through a small
    state-and-failure monad. *)

From Stdlib Require Import ZArith List String Ascii Bool Lia DecimalString.
Import ListNotations.

Local Open Scope Z_scope.
Local Open Scope list_scope.

(** ** Go strings

    A Go [string] is a sequence of bytes; [string] of the Standard Library
    is a list of 8-bit characters, which is the same thing. *)

Definition byte_of (c : ascii) : Z := Z.of_N (N_of_ascii c).
Definition char_of (b : Z) : ascii := ascii_of_N (Z.to_N b).

Definition in_range (lo hi b : Z) : bool := (lo <=? b) && (b <=? hi).

(** [utf8.RuneError], what decoding yields on a malformed sequence. *)
Definition RuneError : Z := 0xFFFD.

(** The [first] and [acceptRanges] tables of Go's [unicode/utf8]: for a
    lead byte, the length of the sequence it starts and the range in which
    the second byte has to lie. *)
Definition lead (b0 : Z) : option (nat * Z * Z) :=
  if in_range 0xC2 0xDF b0 then Some (2%nat, 0x80, 0xBF)
  else if b0 =? 0xE0 then Some (3%nat, 0xA0, 0xBF)
  else if in_range 0xE1 0xEC b0 then Some (3%nat, 0x80, 0xBF)
  else if b0 =? 0xED then Some (3%nat, 0x80, 0x9F)
  else if in_range 0xEE 0xEF b0 then Some (3%nat, 0x80, 0xBF)
  else if b0 =? 0xF0 then Some (4%nat, 0x90, 0xBF)
  else if in_range 0xF1 0xF3 b0 then Some (4%nat, 0x80, 0xBF)
  else if b0 =? 0xF4 then Some (4%nat, 0x80, 0x8F)
  else None.

Definition low6 (b : Z) : Z := Z.land b 0x3F.

(** [utf8.DecodeRuneInString]: the first rune of [s] and its width in
    bytes; a malformed sequence decodes to [RuneError] of width 1. *)
Definition decodeRune (s : string) : Z * nat :=
  match s with
  | EmptyString => (RuneError, 0%nat)
  | String c0 t0 =>
    let b0 := byte_of c0 in
    if b0 <? 0x80 then (b0, 1%nat)
    else
      match lead b0 with
      | None => (RuneError, 1%nat)
      | Some (sz, lo, hi) =>
        match t0 with
        | EmptyString => (RuneError, 1%nat)
        | String c1 t1 =>
          let b1 := byte_of c1 in
          if negb (in_range lo hi b1) then (RuneError, 1%nat)
          else if (sz <=? 2)%nat then
            (Z.lor (Z.shiftl (Z.land b0 0x1F) 6) (low6 b1), 2%nat)
          else
            match t1 with
            | EmptyString => (RuneError, 1%nat)
            | String c2 t2 =>
              let b2 := byte_of c2 in
              if negb (in_range 0x80 0xBF b2) then (RuneError, 1%nat)
              else if (sz <=? 3)%nat then
                (Z.lor (Z.shiftl (Z.land b0 0x0F) 12)
                   (Z.lor (Z.shiftl (low6 b1) 6) (low6 b2)), 3%nat)
              else
                match t2 with
                | EmptyString => (RuneError, 1%nat)
                | String c3 _ =>
                  let b3 := byte_of c3 in
                  if negb (in_range 0x80 0xBF b3) then (RuneError, 1%nat)
                  else
                    (Z.lor (Z.shiftl (Z.land b0 0x07) 18)
                       (Z.lor (Z.shiftl (low6 b1) 12)
                          (Z.lor (Z.shiftl (low6 b2) 6) (low6 b3))), 4%nat)
                end
            end
        end
      end
  end.

(** [for _, char := range s]: the runes of [s] in order.  The loop decodes
    a rune at the current byte and advances by its width; [skip] counts the
    bytes that are still part of the rune decoded last. *)
Fixpoint runes_from (skip : nat) (s : string) : list Z :=
  match s with
  | EmptyString => []
  | String _ t =>
    match skip with
    | S k => runes_from k t
    | O => let (r, w) := decodeRune s in r :: runes_from (w - 1) t
    end
  end.

Definition runes (s : string) : list Z := runes_from 0 s.

Definition string_of_bytes (bs : list Z) : string :=
  fold_right (fun b acc => String (char_of b) acc) EmptyString bs.

(** The conversion [string(char)] of a rune: its UTF-8 encoding, and the
    encoding of [RuneError] for a value that is no valid code point. *)
Definition string_of_rune (r : Z) : string :=
  if (r <? 0) || (0x10FFFF <? r) || in_range 0xD800 0xDFFF r then
    string_of_bytes [0xEF; 0xBF; 0xBD]
  else if r <? 0x80 then string_of_bytes [r]
  else if r <? 0x800 then
    string_of_bytes [Z.lor 0xC0 (Z.shiftr r 6); Z.lor 0x80 (low6 r)]
  else if r <? 0x10000 then
    string_of_bytes [Z.lor 0xE0 (Z.shiftr r 12);
                     Z.lor 0x80 (low6 (Z.shiftr r 6));
                     Z.lor 0x80 (low6 r)]
  else
    string_of_bytes [Z.lor 0xF0 (Z.shiftr r 18);
                     Z.lor 0x80 (low6 (Z.shiftr r 12));
                     Z.lor 0x80 (low6 (Z.shiftr r 6));
                     Z.lor 0x80 (low6 r)].

(** The verb [%d] of [fmt.Sprintf] on a length. *)
Definition itoa (n : nat) : string := NilEmpty.string_of_uint (Nat.to_uint n).

Definition newline : string := String (ascii_of_nat 10) EmptyString.

(** [strings.Join]. *)
Definition Join (elems : list string) (sep : string) : string :=
  String.concat sep elems.

(** ** Go durations

    A [time.Duration] is a number of nanoseconds in an [int64]; its
    arithmetic wraps around. *)

Definition wrapInt64 (z : Z) : Z := (z + 2 ^ 63) mod 2 ^ 64 - 2 ^ 63.

Definition Millisecond : Z := 1000000.

(** [time.Duration(milliseconds) * time.Millisecond]. *)
Definition durationOfMilliseconds (milliseconds : Z) : Z :=
  wrapInt64 (milliseconds * Millisecond).

(** The nanoseconds for which
    [time.Sleep(time.Duration(milliseconds) * time.Millisecond)] pauses:
    [time.Sleep] returns at once on a duration that is zero or negative. *)
Definition pausedFor (milliseconds : Z) : Z :=
  Z.max 0 (durationOfMilliseconds milliseconds).
Arguments pausedFor : simpl never.

(** ** The collaborators of the facade *)

(** Modelled from the spec: the [matcher] struct is declared in a file of
    the package that is not among the sources.  A matcher is a plain value
    carrying a pure predicate over one line of text, which also yields an
    optional detail, and a name used verbatim in diagnostics. *)
Record matcher : Type := {
  testFn : string -> bool * string;
  name : string
}.

Definition test (m : matcher) (value : string) : bool * string :=
  testFn m value.

(** The part of [config.KeybindingConfig] that [input.go] reads: the
    fields of [keys.Universal].  [JumpToBlock] is a slice of key strings,
    the others are single key strings. *)
Module config.
Record KeybindingUniversalConfig : Type := {
  JumpToBlock : list string;
  Confirm : string;
  Return : string;
  Select : string;
  NextItem : string;
  PrevItem : string;
  CreateRebaseOptionsMenu : string;
  TogglePanel : string
}.

Record KeybindingConfig : Type := {
  Universal : KeybindingUniversalConfig
}.
End config.

(** The GUI driver, [integrationTypes.GuiDriver], seen from the facade.
  The application under test is a black box of state [G] that runs on
  its own schedule: [redraw] is what it does between two calls of the
  test, [elapse] what it does while the test pauses for that many
  nanoseconds.  [PressKey] and
  [LogUI] are the calls of the driver; [CurrentContextIsList],
  [ViewBufferLines] and [SelectedLineIdx] are the reads made through
  [CurrentContext()] and the view it returns. *)
Module integrationTypes.
Record GuiDriver (G : Type) : Type := {
  PressKey : string -> G -> G;
  LogUI : string -> G -> G;
  CurrentContextIsList : G -> bool;
  ViewBufferLines : G -> list string;
  SelectedLineIdx : G -> Z;
  elapse : Z -> G -> G;
  redraw : G -> G
}.
Arguments PressKey {G}.
Arguments LogUI {G}.
Arguments CurrentContextIsList {G}.
Arguments ViewBufferLines {G}.
Arguments SelectedLineIdx {G}.
Arguments elapse {G}.
Arguments redraw {G}.
End integrationTypes.

(** The assertions of [*Assert] that the facade calls. *)
Inductive assertion : Type :=
| InListContext
| InConfirm
| InPrompt
| InMenu
| CurrentWindowName (expected : string)
| CurrentViewName (expected : string)
| CurrentViewTitle (m : matcher)
| CurrentViewContent (m : matcher)
| SelectedLine (m : matcher).

(** Modelled from the spec: the [Assert] struct and its methods are in a
    file of the package that is not among the sources.  An assertion is
    taken as a parameter: [holds a g] lets the application run to some
    state and either passes or gives the message the test fails with.  The
    retrying poll has a fixed delay between attempts and a fixed number of
    attempts, both configuration of the whole process. *)
Record Assert (G : Type) : Type := {
  holds : assertion -> G -> G * option string;
  retryDelay : Z;
  maxAttempts : nat
}.
Arguments holds {G}.
Arguments retryDelay {G}.
Arguments maxAttempts {G}.

(** The [Input] struct. *)
Record Input (G : Type) : Type := {
  gui : integrationTypes.GuiDriver G;
  keys : config.KeybindingConfig;
  assert : Assert G;
  pushKeyDelay : Z
}.
Arguments gui {G}.
Arguments keys {G}.
Arguments assert {G}.
Arguments pushKeyDelay {G}.

Definition NewInput {G : Type} (gui : integrationTypes.GuiDriver G)
    (keys : config.KeybindingConfig) (assert : Assert G) (pushKeyDelay : Z)
  : Input G :=
  {| gui := gui; keys := keys; assert := assert; pushKeyDelay := pushKeyDelay |}.

(** ** Worlds, traces and the monad of test code *)

(** What the outside observes of a run, in the order it happens.
    [EvSleep milliseconds] is the call
    [time.Sleep(time.Duration(milliseconds) * time.Millisecond)] with the
    number it is made with; it pauses for [pausedFor milliseconds]. *)
Inductive event : Type :=
| EvSleep (milliseconds : Z)
| EvPressKey (keyStr : string)
| EvLogUI (message : string)
| EvCurrentContext
| EvViewBufferLines
| EvSelectedLineIdx
| EvAssert (a : assertion).

Record World (G : Type) : Type := {
  app : G;
  trace : list event
}.
Arguments app {G}.
Arguments trace {G}.

(** A call returns, or the test fails with a message ([self.Fail] of an
    assertion, fatal to the scenario), or the Go runtime panics. *)
Inductive outcome (G A : Type) : Type :=
| Done (a : A) (w : World G)
| Fatal (reason : string) (w : World G)
| Panic (reason : string) (w : World G).
Arguments Done {G A}.
Arguments Fatal {G A}.
Arguments Panic {G A}.

Definition M (G A : Type) : Type := World G -> outcome G A.

Definition ret {G A : Type} (a : A) : M G A := fun w => Done a w.

Definition bind {G A B : Type} (c : M G A) (k : A -> M G B) : M G B :=
  fun w =>
    match c w with
    | Done a w' => k a w'
    | Fatal reason w' => Fatal reason w'
    | Panic reason w' => Panic reason w'
    end.

Notation "x <- c ;; k" := (bind c (fun x => k))
  (at level 61, c at next level, right associativity).
Notation "c ;; k" := (bind c (fun _ => k))
  (at level 61, right associativity).

Definition world_of {G A : Type} (o : outcome G A) : World G :=
  match o with
  | Done _ w => w
  | Fatal _ w => w
  | Panic _ w => w
  end.

Definition emit {G : Type} (e : event) (g : G) (w : World G) : World G :=
  {| app := g; trace := trace w ++ [e] |}.

(** The key strings pressed in a trace, in order. *)
Fixpoint presses (evs : list event) : list string :=
  match evs with
  | [] => []
  | EvPressKey k :: rest => k :: presses rest
  | _ :: rest => presses rest
  end.

(** *** The check made at each attempt of [NavigateToListItem]

    The closure passed to [assertWithRetries] scans the visible lines,
    collecting the matching ones in [matches] and leaving in [matchIndex]
    the index of the last of them. *)
Fixpoint scanLines (m : matcher) (lines : list string) (i : Z)
    (matches : list string) (matchIndex : Z) : list string * Z :=
  match lines with
  | [] => (matches, matchIndex)
  | line :: rest =>
    if fst (test m line)
    then scanLines m rest (i + 1) (matches ++ [line]) i
    else scanLines m rest (i + 1) matches matchIndex
  end.

Definition manyMatches (m : matcher) (matches : list string) : string :=
  ("Found " ++ itoa (List.length matches) ++ " matches for `" ++ name m
     ++ "`, expected only a single match. Lines:" ++ newline
     ++ Join matches newline)%string.

Definition noMatch (m : matcher) : string :=
  ("Could not find item matching: " ++ name m)%string.

(** The body of the closure once the lines are read: the new value of the
    captured [matchIndex], and the pair the closure returns. *)
Definition checkLines (m : matcher) (lines : list string)
  : Z * (bool * string) :=
  let (matches, matchIndex) := scanLines m lines 0 [] (-1) in
  if (1 <? List.length matches)%nat then (matchIndex, (false, manyMatches m matches))
  else if (List.length matches =? 0)%nat then (matchIndex, (false, noMatch m))
  else (matchIndex, (true, EmptyString)).

Section Facade.

Context {G : Type}.
Variable self : Input G.

(** [Contains] builds a matcher; it is declared with [matcher]. *)
Variable Contains : string -> matcher.

Let driver := gui self.
Let universal := config.Universal (keys self).

(** *** Calls out of the test *)

(** [time.Sleep(time.Duration(milliseconds) * time.Millisecond)]: the
    duration is computed in [int64]; the application runs for as long as
    the call pauses. *)
Definition sleep (milliseconds : Z) : M G unit :=
  fun w =>
    Done tt (emit (EvSleep milliseconds)
               (integrationTypes.elapse driver (pausedFor milliseconds)
                  (app w)) w).

Definition guiPressKey (keyStr : string) : M G unit :=
  fun w =>
    Done tt (emit (EvPressKey keyStr)
               (integrationTypes.PressKey driver keyStr
                  (integrationTypes.redraw driver (app w))) w).

Definition guiLogUI (message : string) : M G unit :=
  fun w =>
    Done tt (emit (EvLogUI message)
               (integrationTypes.LogUI driver message
                  (integrationTypes.redraw driver (app w))) w).

(** [self.gui.CurrentContext().(types.IListContext)]: the type assertion
    panics when the focused context is no list context. *)
Definition guiCurrentListContext : M G unit :=
  fun w =>
    let g := integrationTypes.redraw driver (app w) in
    if integrationTypes.CurrentContextIsList driver g
    then Done tt (emit EvCurrentContext g w)
    else Panic "interface conversion: not a types.IListContext"
           (emit EvCurrentContext g w).

Definition viewViewBufferLines : M G (list string) :=
  fun w =>
    let g := integrationTypes.redraw driver (app w) in
    Done (integrationTypes.ViewBufferLines driver g) (emit EvViewBufferLines g w).

Definition viewSelectedLineIdx : M G Z :=
  fun w =>
    let g := integrationTypes.redraw driver (app w) in
    Done (integrationTypes.SelectedLineIdx driver g) (emit EvSelectedLineIdx g w).

(** A method of [self.assert]: it returns when the assertion holds and
    fails the test otherwise. *)
Definition assertThat (a : assertion) : M G unit :=
  fun w =>
    let (g, failure) := holds (assert self) a (app w) in
    match failure with
    | None => Done tt (emit (EvAssert a) g w)
    | Some reason => Fatal reason (emit (EvAssert a) g w)
    end.

(** Indexing a slice: out of range, the runtime panics. *)
Definition index (xs : list string) (i : nat) : M G string :=
  fun w =>
    match nth_error xs i with
    | Some x => Done x w
    | None => Panic "index out of range" w
    end.

(** *** Loops *)

Fixpoint forEach {A : Type} (body : A -> M G unit) (xs : list A) : M G unit :=
  match xs with
  | [] => ret tt
  | x :: rest => body x ;; forEach body rest
  end.

Fixpoint times (n : nat) (body : M G unit) : M G unit :=
  match n with
  | O => ret tt
  | S n' => body ;; times n' body
  end.

(** [for i := from; i < to; i++ { body }] and
    [for i := from; i > to; i-- { body }], for a body that does not read
    [i]: the body runs [to - from] times, resp. [from - to] times, and not
    at all when that is not positive.  The indices are lengths of slices,
    far from the bounds of [int]. *)
Definition forUp (from to : Z) (body : M G unit) : M G unit :=
  times (Z.to_nat (to - from)) body.

Definition forDown (from to : Z) (body : M G unit) : M G unit :=
  times (Z.to_nat (from - to)) body.

(** *** The methods of [Input] *)

(** for when you want to allow lazygit to process something before
    continuing *)
Definition Wait (milliseconds : Z) : M G unit := sleep milliseconds.

Definition press (keyStr : string) : M G unit :=
  Wait (pushKeyDelay self) ;;
  guiPressKey keyStr.

Definition Press (keyStrs : list string) : M G unit :=
  forEach press keyStrs.

Definition SwitchToStatusWindow : M G unit :=
  keyStr <- index (config.JumpToBlock universal) 0 ;;
  press keyStr ;;
  assertThat (CurrentWindowName "status").

Definition SwitchToFilesWindow : M G unit :=
  keyStr <- index (config.JumpToBlock universal) 1 ;;
  press keyStr ;;
  assertThat (CurrentWindowName "files").

Definition SwitchToBranchesWindow : M G unit :=
  keyStr <- index (config.JumpToBlock universal) 2 ;;
  press keyStr ;;
  assertThat (CurrentWindowName "localBranches").

Definition SwitchToCommitsWindow : M G unit :=
  keyStr <- index (config.JumpToBlock universal) 3 ;;
  press keyStr ;;
  assertThat (CurrentWindowName "commits").

Definition SwitchToStashWindow : M G unit :=
  keyStr <- index (config.JumpToBlock universal) 4 ;;
  press keyStr ;;
  assertThat (CurrentWindowName "stash").

(** [Type] in the source; the name is a keyword here. *)
Definition Type_ (content : string) : M G unit :=
  forEach (fun char => press (string_of_rune char)) (runes content).

(** i.e. pressing enter *)
Definition Confirm : M G unit := press (config.Confirm universal).

(** i.e. same as Confirm *)
Definition Enter : M G unit := press (config.Confirm universal).

(** i.e. pressing escape *)
Definition Cancel : M G unit := press (config.Return universal).

(** i.e. pressing space *)
Definition PrimaryAction : M G unit := press (config.Select universal).

(** i.e. pressing down arrow *)
Definition NextItem : M G unit := press (config.NextItem universal).

(** i.e. pressing up arrow *)
Definition PreviousItem : M G unit := press (config.PrevItem universal).

Definition ContinueMerge : M G unit :=
  Press [config.CreateRebaseOptionsMenu universal] ;;
  assertThat (SelectedLine (Contains "continue")) ;;
  Confirm.

Definition ContinueRebase : M G unit := ContinueMerge.

Definition LogUI (message : string) : M G unit := guiLogUI message.

Definition Log (message : string) : M G unit := guiLogUI message.

(** Modelled from the spec: [assertWithRetries] is a method of [Assert],
    whose file is not among the sources.  It evaluates the check until it
    succeeds, waiting the fixed delay after an attempt that failed, and
    fails the test with the reason of the last attempt once the budget of
    attempts is used up.  The check is a closure that assigns a captured
    variable: here it returns its new value next to its own result, and
    the poll returns the value left by the attempt that succeeded. *)
Fixpoint retry {A : Type} (attempts : nat) (check : M G (A * (bool * string)))
    (message : string) : M G A :=
  match attempts with
  | O => fun w => Fatal message w
  | S n =>
    r <- check ;;
    let '(a, (ok, reason)) := r in
    if ok then ret a
    else sleep (retryDelay (assert self)) ;; retry n check reason
  end.

Definition assertWithRetries {A : Type} (check : M G (A * (bool * string)))
  : M G A :=
  retry (maxAttempts (assert self)) check EmptyString.

(** The closure of [NavigateToListItem]. *)
Definition findMatch (m : matcher) : M G (Z * (bool * string)) :=
  lines <- viewViewBufferLines ;;
  ret (checkLines m lines).

(** The first part of [NavigateToListItem], up to the end of the poll. *)
Definition locateListItem (m : matcher) : M G Z :=
  assertThat InListContext ;;
  guiCurrentListContext ;;
  assertWithRetries (findMatch m).

(** The second part: from the two indices to the key presses. *)
Definition moveSelection (m : matcher) (selectedLineIdx matchIndex : Z)
  : M G unit :=
  if selectedLineIdx =? matchIndex then
    assertThat (SelectedLine m)
  else if selectedLineIdx <? matchIndex then
    forUp selectedLineIdx matchIndex NextItem ;;
    assertThat (SelectedLine m)
  else
    forDown selectedLineIdx matchIndex PreviousItem ;;
    assertThat (SelectedLine m).

Definition NavigateToListItem (m : matcher) : M G unit :=
  matchIndex <- locateListItem m ;;
  selectedLineIdx <- viewSelectedLineIdx ;;
  moveSelection m selectedLineIdx matchIndex.

Definition AcceptConfirmation (title content : matcher) : M G unit :=
  assertThat InConfirm ;;
  assertThat (CurrentViewTitle title) ;;
  assertThat (CurrentViewContent content) ;;
  Confirm.

Definition DenyConfirmation (title content : matcher) : M G unit :=
  assertThat InConfirm ;;
  assertThat (CurrentViewTitle title) ;;
  assertThat (CurrentViewContent content) ;;
  Cancel.

Definition Prompt (title : matcher) (textToType : string) : M G unit :=
  assertThat InPrompt ;;
  assertThat (CurrentViewTitle title) ;;
  Type_ textToType ;;
  Confirm.

Definition Typeahead (title : matcher) (textToType : string)
    (expectedFirstOption : matcher) : M G unit :=
  assertThat InPrompt ;;
  assertThat (CurrentViewTitle title) ;;
  Type_ textToType ;;
  Press [config.TogglePanel universal] ;;
  assertThat (CurrentViewName "suggestions") ;;
  assertThat (SelectedLine expectedFirstOption) ;;
  Confirm.

Definition Menu (title optionToSelect : matcher) : M G unit :=
  assertThat InMenu ;;
  assertThat (CurrentViewTitle title) ;;
  NavigateToListItem optionToSelect ;;
  Confirm.

Definition Alert (title content : matcher) : M G unit :=
  assertThat InListContext ;;
  assertThat (CurrentViewTitle title) ;;
  assertThat (CurrentViewContent content) ;;
  Confirm.

End Facade.

(** ** The vocabulary of a scenario *)

(** The methods of [Input] as data, so that one statement covers the
    facade as a whole. *)
Inductive intent : Type :=
| DoPress (keyStrs : list string)
| DoSwitchToStatusWindow
| DoSwitchToFilesWindow
| DoSwitchToBranchesWindow
| DoSwitchToCommitsWindow
| DoSwitchToStashWindow
| DoType (content : string)
| DoConfirm
| DoEnter
| DoCancel
| DoPrimaryAction
| DoNextItem
| DoPreviousItem
| DoContinueMerge
| DoContinueRebase
| DoWait (milliseconds : Z)
| DoLogUI (message : string)
| DoLog (message : string)
| DoNavigateToListItem (m : matcher)
| DoAcceptConfirmation (title content : matcher)
| DoDenyConfirmation (title content : matcher)
| DoPrompt (title : matcher) (textToType : string)
| DoTypeahead (title : matcher) (textToType : string)
    (expectedFirstOption : matcher)
| DoMenu (title optionToSelect : matcher)
| DoAlert (title content : matcher).

Definition perform {G : Type} (self : Input G) (Contains : string -> matcher)
    (i : intent) : M G unit :=
  match i with
  | DoPress keyStrs => Press self keyStrs
  | DoSwitchToStatusWindow => SwitchToStatusWindow self
  | DoSwitchToFilesWindow => SwitchToFilesWindow self
  | DoSwitchToBranchesWindow => SwitchToBranchesWindow self
  | DoSwitchToCommitsWindow => SwitchToCommitsWindow self
  | DoSwitchToStashWindow => SwitchToStashWindow self
  | DoType content => Type_ self content
  | DoConfirm => Confirm self
  | DoEnter => Enter self
  | DoCancel => Cancel self
  | DoPrimaryAction => PrimaryAction self
  | DoNextItem => NextItem self
  | DoPreviousItem => PreviousItem self
  | DoContinueMerge => ContinueMerge self Contains
  | DoContinueRebase => ContinueRebase self Contains
  | DoWait milliseconds => Wait self milliseconds
  | DoLogUI message => LogUI self message
  | DoLog message => Log self message
  | DoNavigateToListItem m => NavigateToListItem self m
  | DoAcceptConfirmation title content => AcceptConfirmation self title content
  | DoDenyConfirmation title content => DenyConfirmation self title content
  | DoPrompt title textToType => Prompt self title textToType
  | DoTypeahead title textToType expectedFirstOption =>
    Typeahead self title textToType expectedFirstOption
  | DoMenu title optionToSelect => Menu self title optionToSelect
  | DoAlert title content => Alert self title content
  end.

(** The events a computation adds to the trace of the world it starts in. *)
Definition events_of {G A : Type} (c : M G A) (w : World G) : list event :=
  skipn (List.length (trace w)) (trace (world_of (c w))).

(** The four composite flows that answer a modal, and what each has to
    see on the screen before it acts. *)
Inductive modalFlow : Type :=
| FlowAcceptConfirmation (title content : matcher)
| FlowDenyConfirmation (title content : matcher)
| FlowPrompt (title : matcher) (textToType : string)
| FlowMenu (title optionToSelect : matcher).

Definition runFlow {G : Type} (self : Input G) (f : modalFlow) : M G unit :=
  match f with
  | FlowAcceptConfirmation title content => AcceptConfirmation self title content
  | FlowDenyConfirmation title content => DenyConfirmation self title content
  | FlowPrompt title textToType => Prompt self title textToType
  | FlowMenu title optionToSelect => Menu self title optionToSelect
  end.

Definition expectedModal (f : modalFlow) : list assertion :=
  match f with
  | FlowAcceptConfirmation title content =>
    [InConfirm; CurrentViewTitle title; CurrentViewContent content]
  | FlowDenyConfirmation title content =>
    [InConfirm; CurrentViewTitle title; CurrentViewContent content]
  | FlowPrompt title _ => [InPrompt; CurrentViewTitle title]
  | FlowMenu title _ => [InMenu; CurrentViewTitle title]
  end.

(** ** Properties of the environment *)

(** The indices of the lines that satisfy the matcher, counted from [i]. *)
Fixpoint matchIndices (m : matcher) (lines : list string) (i : Z) : list Z :=
  match lines with
  | [] => []
  | line :: rest =>
    if fst (test m line) then i :: matchIndices m rest (i + 1)
    else matchIndices m rest (i + 1)
  end.

Definition matching (m : matcher) (lines : list string) : list string :=
  filter (fun line => fst (test m line)) lines.

Section Environment.

Context {G : Type}.
Variable self : Input G.

Let driver := gui self.

(** Two states of the application look the same to the test. *)
Definition sameView (g g' : G) : Prop :=
  integrationTypes.CurrentContextIsList driver g'
    = integrationTypes.CurrentContextIsList driver g
  /\ integrationTypes.ViewBufferLines driver g'
    = integrationTypes.ViewBufferLines driver g
  /\ integrationTypes.SelectedLineIdx driver g'
    = integrationTypes.SelectedLineIdx driver g.

(** The application is at rest: what it shows changes neither on its own,
    nor while the test sleeps, nor when an assertion looks at it. *)
Record quiescent : Prop := {
  rest_redraw : forall g, sameView g (integrationTypes.redraw driver g);
  rest_elapse : forall ms g, sameView g (integrationTypes.elapse driver ms g);
  rest_holds : forall a g, sameView g (fst (holds (assert self) a g))
}.

(** The two assertions [NavigateToListItem] makes pass where what they
    assert is the case. *)
Record assertionsPass : Prop := {
  pass_InListContext : forall g,
    integrationTypes.CurrentContextIsList driver g = true ->
    snd (holds (assert self) InListContext g) = None;
  pass_SelectedLine : forall m g line,
    0 <= integrationTypes.SelectedLineIdx driver g ->
    nth_error (integrationTypes.ViewBufferLines driver g)
      (Z.to_nat (integrationTypes.SelectedLineIdx driver g)) = Some line ->
    fst (test m line) = true ->
    snd (holds (assert self) (SelectedLine m) g) = None
}.

(** The focused view is a list: the key of [NextItem] moves the selection
    down by one line where there is one, the key of [PrevItem] moves it up
    by one. *)
Record listKeys : Prop := {
  key_next : forall g,
    integrationTypes.SelectedLineIdx driver g + 1
      < Z.of_nat (List.length (integrationTypes.ViewBufferLines driver g)) ->
    let g' := integrationTypes.PressKey driver
                (config.NextItem (config.Universal (keys self))) g in
    integrationTypes.CurrentContextIsList driver g'
      = integrationTypes.CurrentContextIsList driver g
    /\ integrationTypes.ViewBufferLines driver g'
      = integrationTypes.ViewBufferLines driver g
    /\ integrationTypes.SelectedLineIdx driver g'
      = integrationTypes.SelectedLineIdx driver g + 1;
  key_prev : forall g,
    0 < integrationTypes.SelectedLineIdx driver g ->
    let g' := integrationTypes.PressKey driver
                (config.PrevItem (config.Universal (keys self))) g in
    integrationTypes.CurrentContextIsList driver g'
      = integrationTypes.CurrentContextIsList driver g
    /\ integrationTypes.ViewBufferLines driver g'
      = integrationTypes.ViewBufferLines driver g
    /\ integrationTypes.SelectedLineIdx driver g'
      = integrationTypes.SelectedLineIdx driver g - 1
}.

(** The snapshot of a world: the visible lines and the selected index. *)
Definition showing (lines : list string) (s : Z) (w : World G) : Prop :=
  integrationTypes.CurrentContextIsList driver (app w) = true
  /\ integrationTypes.ViewBufferLines driver (app w) = lines
  /\ integrationTypes.SelectedLineIdx driver (app w) = s.

End Environment.

(** ** Properties of traces *)

(** Running [c] from [w] adds the events [evs] to the trace. *)
Definition adds {G A : Type} (c : M G A) (w : World G) (evs : list event)
  : Prop :=
  trace (world_of (c w)) = trace w ++ evs.

(** Every run of [c] adds events that satisfy [P]. *)
Definition emits {G A : Type} (P : list event -> Prop) (c : M G A) : Prop :=
  forall w, exists evs, adds c w evs /\ P evs.

(** [c] returns [a] from [w], adding [evs] to the trace and ending in [w']. *)
Definition runs {G A : Type} (c : M G A) (w : World G) (a : A)
    (evs : list event) (w' : World G) : Prop :=
  c w = Done a w' /\ trace w' = trace w ++ evs.

Definition isPress (e : event) : bool :=
  match e with
  | EvPressKey _ => true
  | _ => false
  end.

(** A trace in which the keys are pressed at the pace [delay]: it is made
    of pairs of a sleep of [delay] and a key press, and of events that are
    no key press. *)
Inductive paced (delay : Z) : list event -> Prop :=
| paced_nil : paced delay []
| paced_press keyStr evs :
    paced delay evs ->
    paced delay (EvSleep delay :: EvPressKey keyStr :: evs)
| paced_other e evs :
    isPress e = false ->
    paced delay evs ->
    paced delay (e :: evs).

(** A trace in which no key is pressed before the assertions [asserts]
    have been made, in that order, as its first events. *)
Definition behind (asserts : list assertion) (evs : list event) : Prop :=
  forall pre keyStr post,
    evs = pre ++ EvPressKey keyStr :: post ->
    exists rest, pre = map EvAssert asserts ++ rest.

(** The outcome is no panic of the runtime. *)
Definition inBounds {G A : Type} (o : outcome G A) : Prop :=
  match o with
  | Panic _ _ => False
  | _ => True
  end.

(** ** A list view to run the facade on

    The commits panel of the scenario [One]: five commits, the newest
    first.  The application is a selection in that list and a number of
    moves down that it has received but not yet drawn. *)
Module Example.

Local Open Scope string_scope.
Local Open Scope Z_scope.

Definition commits : list string :=
  ["commit 05"; "commit 04"; "commit 03"; "commit 02"; "commit 01"].

Fixpoint containsSubstring (target s : string) : bool :=
  prefix target s
  || match s with
     | EmptyString => false
     | String _ t => containsSubstring target t
     end.

(** A matcher by substring, named after its target. *)
Definition containing (target : string) : matcher :=
  {| testFn := fun line => (containsSubstring target line, EmptyString);
     name := target |}.

Definition defaultKeys : config.KeybindingConfig :=
  {| config.Universal :=
       {| config.JumpToBlock := ["1"; "2"; "3"; "4"; "5"];
          config.Confirm := "<enter>";
          config.Return := "<esc>";
          config.Select := "<space>";
          config.NextItem := "<down>";
          config.PrevItem := "<up>";
          config.CreateRebaseOptionsMenu := "m";
          config.TogglePanel := "<tab>" |} |}.

(** A keybinding table whose "jump to block" family has four entries. *)
Definition fourBlockKeys : config.KeybindingConfig :=
  {| config.Universal :=
       {| config.JumpToBlock := ["1"; "2"; "3"; "4"];
          config.Confirm := "<enter>";
          config.Return := "<esc>";
          config.Select := "<space>";
          config.NextItem := "<down>";
          config.PrevItem := "<up>";
          config.CreateRebaseOptionsMenu := "m";
          config.TogglePanel := "<tab>" |} |}.

Record Panel : Type := {
  selected : Z;
  queued : nat
}.

Definition pressKey (keyStr : string) (p : Panel) : Panel :=
  if String.eqb keyStr "<down>" then
    if selected p + 1 <? Z.of_nat (List.length commits)
    then {| selected := selected p + 1; queued := queued p |}
    else p
  else if String.eqb keyStr "<up>" then
    if 0 <? selected p
    then {| selected := selected p - 1; queued := queued p |}
    else p
  else p.

(** One queued move is drawn. *)
Definition drawQueued (p : Panel) : Panel :=
  match queued p with
  | O => p
  | S n =>
    if selected p + 1 <? Z.of_nat (List.length commits)
    then {| selected := selected p + 1; queued := n |}
    else {| selected := selected p; queued := n |}
  end.

(** The application at rest: nothing moves unless a key is pressed. *)
Definition restingDriver : integrationTypes.GuiDriver Panel :=
  {| integrationTypes.PressKey := pressKey;
     integrationTypes.LogUI := fun _ p => p;
     integrationTypes.CurrentContextIsList := fun _ => true;
     integrationTypes.ViewBufferLines := fun _ => commits;
     integrationTypes.SelectedLineIdx := selected;
     integrationTypes.elapse := fun _ p => p;
     integrationTypes.redraw := fun p => p |}.

(** The application still busy with earlier input: between two calls of
    the test it draws one of the queued moves. *)
Definition busyDriver : integrationTypes.GuiDriver Panel :=
  {| integrationTypes.PressKey := pressKey;
     integrationTypes.LogUI := fun _ p => p;
     integrationTypes.CurrentContextIsList := fun _ => true;
     integrationTypes.ViewBufferLines := fun _ => commits;
     integrationTypes.SelectedLineIdx := selected;
     integrationTypes.elapse := fun _ p => p;
     integrationTypes.redraw := drawQueued |}.

(** Assertions on the panel: the selected line is looked up and tested,
    the focused context is a list, the others are not of this panel and
    pass. *)
Definition panelHolds (a : assertion) (p : Panel) : Panel * option string :=
  match a with
  | SelectedLine m =>
    match nth_error commits (Z.to_nat (selected p)) with
    | Some line =>
      if (0 <=? selected p) && fst (test m line) then (p, None)
      else (p, Some ("Unexpected selected line: " ++ name m))
    | None => (p, Some ("Unexpected selected line: " ++ name m))
    end
  | _ => (p, None)
  end.

Definition panelAssert : Assert Panel :=
  {| holds := panelHolds; retryDelay := 10; maxAttempts := 3 |}.

Definition restingInput : Input Panel :=
  NewInput restingDriver defaultKeys panelAssert 30.

Definition busyInput : Input Panel :=
  NewInput busyDriver defaultKeys panelAssert 30.

Definition fourBlockInput : Input Panel :=
  NewInput restingDriver fourBlockKeys panelAssert 30.

Definition start (s : Z) (pending : nat) : World Panel :=
  {| app := {| selected := s; queued := pending |}; trace := [] |}.

End Example.

(** ** Further vocabulary for the properties of the facade *)

(** The call returned. *)
Definition isDone {G A : Type} (o : outcome G A) : bool :=
  match o with
  | Done _ _ => true
  | _ => false
  end.

(** The five panel switches: the index each reads in [JumpToBlock] and the
    window it then expects. *)
Definition blockWindow (i : intent) : option (nat * string) :=
  match i with
  | DoSwitchToStatusWindow => Some (0%nat, "status"%string)
  | DoSwitchToFilesWindow => Some (1%nat, "files"%string)
  | DoSwitchToBranchesWindow => Some (2%nat, "localBranches"%string)
  | DoSwitchToCommitsWindow => Some (3%nat, "commits"%string)
  | DoSwitchToStashWindow => Some (4%nat, "stash"%string)
  | _ => None
  end.

(** The operations that index a slice or convert the focused context. *)
Definition indexesOrConverts (i : intent) : bool :=
  match i with
  | DoSwitchToStatusWindow | DoSwitchToFilesWindow | DoSwitchToBranchesWindow
  | DoSwitchToCommitsWindow | DoSwitchToStashWindow
  | DoNavigateToListItem _ | DoMenu _ _ => true
  | _ => false
  end.

(** A Unicode code point that is no surrogate: what [string(char)]
    encodes as itself. *)
Definition validRune (r : Z) : bool :=
  (0 <=? r) && (r <=? 0x10FFFF) && negb (in_range 0xD800 0xDFFF r).

(** The keys [c] presses: [ks] when it returns, one of [fs] when it does
    not. *)
Definition keysPressed {G : Type} (ks : list string) (fs : list (list string))
    (c : M G unit) : Prop :=
  forall w, exists evs,
    adds c w evs
    /\ if isDone (c w) then presses evs = ks else In (presses evs) fs.

(** [c] always returns, having pressed the keys [ks]. *)
Definition alwaysPresses {G : Type} (ks : list string) (c : M G unit) : Prop :=
  forall w, exists w' evs, runs c w tt evs w' /\ presses evs = ks.

(** [c] never panics. *)
Definition neverPanics {G A : Type} (c : M G A) : Prop :=
  forall w, inBounds (c w).

(** ** The application on a clock

    To tell how far apart in time the key presses reach the application,
    the application is given a clock: it runs forward while the test
    pauses and it notes the time of every key press. *)
Record Clock : Type := {
  now : Z;
  pressedAt : list Z
}.

Definition clocked {G : Type} (driver : integrationTypes.GuiDriver G)
  : integrationTypes.GuiDriver (G * Clock) :=
  {| integrationTypes.PressKey := fun keyStr s =>
       (integrationTypes.PressKey driver keyStr (fst s),
        {| now := now (snd s);
           pressedAt := pressedAt (snd s) ++ [now (snd s)] |});
     integrationTypes.LogUI := fun message s =>
       (integrationTypes.LogUI driver message (fst s), snd s);
     integrationTypes.CurrentContextIsList := fun s =>
       integrationTypes.CurrentContextIsList driver (fst s);
     integrationTypes.ViewBufferLines := fun s =>
       integrationTypes.ViewBufferLines driver (fst s);
     integrationTypes.SelectedLineIdx := fun s =>
       integrationTypes.SelectedLineIdx driver (fst s);
     integrationTypes.elapse := fun nanoseconds s =>
       (integrationTypes.elapse driver nanoseconds (fst s),
        {| now := now (snd s) + nanoseconds;
           pressedAt := pressedAt (snd s) |});
     integrationTypes.redraw := fun s =>
       (integrationTypes.redraw driver (fst s), snd s) |}.

(** The assertions look at the application and leave the clock alone. *)
Definition clockedAssert {G : Type} (a : Assert G) : Assert (G * Clock) :=
  {| holds := fun x s =>
       let (g, failure) := holds a x (fst s) in ((g, snd s), failure);
     retryDelay := retryDelay a;
     maxAttempts := maxAttempts a |}.

Definition withClock {G : Type} (self : Input G) : Input (G * Clock) :=
  NewInput (clocked (gui self)) (keys self) (clockedAssert (assert self))
    (pushKeyDelay self).

Definition clockOf {G : Type} (w : World (G * Clock)) : Clock := snd (app w).

(** Times [ts] between [from] and [upTo], in order, each at least
    [interval] after the one before it, the first at least [interval]
    after [from]. *)
Inductive spaced (interval : Z) : Z -> list Z -> Z -> Prop :=
| spaced_nil from upTo :
    from <= upTo -> spaced interval from [] upTo
| spaced_cons from t ts upTo :
    from + interval <= t ->
    spaced interval t ts upTo ->
    spaced interval from (t :: ts) upTo.

(** Every run of [c] presses its keys [interval] apart. *)
Definition timed {G A : Type} (interval : Z) (c : M (G * Clock) A) : Prop :=
  forall w, exists ts,
    pressedAt (clockOf (world_of (c w))) = pressedAt (clockOf w) ++ ts
    /\ spaced interval (now (clockOf w)) ts (now (clockOf (world_of (c w)))).

(** ** The characters of a text

    A text in UTF-8 is read as the encodings of code points, one after the
    other.  Where no encoding of a code point starts, the byte there counts
    as one malformed character, and that character is shown as U+FFFD, the
    replacement character. *)
Definition replacementCharacter : string := string_of_bytes [0xEF; 0xBF; 0xBD].

Inductive characters : string -> list string -> Prop :=
| characters_nil : characters EmptyString []
| characters_rune r rest keys :
    validRune r = true ->
    characters rest keys ->
    characters (string_of_rune r ++ rest)%string (string_of_rune r :: keys)
| characters_malformed c rest keys :
    (forall r tail, validRune r = true ->
                    String c rest <> (string_of_rune r ++ tail)%string) ->
    characters rest keys ->
    characters (String c rest) (replacementCharacter :: keys).

(** A world of the panel with a clock that starts at zero. *)
Definition startClock (s : Z) : World (Example.Panel * Clock) :=
  {| app := ({| Example.selected := s; Example.queued := 0 |},
             {| now := 0; pressedAt := [] |});
     trace := [] |}.

(** A settle delay whose duration in nanoseconds does not fit [int64]. *)
Definition hugeDelayInput : Input Example.Panel :=
  NewInput Example.restingDriver Example.defaultKeys Example.panelAssert
    9223372036855.

(** * Proofs *)

(** ** Traces only grow *)

Section Traces.

Context {G : Type}.

Lemma events_of_adds {A : Type} (c : M G A) (w : World G) (evs : list event) :
  adds c w evs -> events_of c w = evs.
Proof.
  unfold adds, events_of. intros ->.
  rewrite skipn_app, skipn_all, Nat.sub_diag. reflexivity.
Qed.

Lemma emits_ret {A : Type} (P : list event -> Prop) (a : A) :
  P [] -> emits P (ret (G := G) a).
Proof.
  intros HP w. exists []. split; [|exact HP].
  unfold adds, ret. simpl. now rewrite app_nil_r.
Qed.

Lemma emits_bind {A B : Type} (P : list event -> Prop)
    (c : M G A) (k : A -> M G B) :
  (forall e1 e2, P e1 -> P e2 -> P (e1 ++ e2)) ->
  emits P c -> (forall a, emits P (k a)) -> emits P (bind c k).
Proof.
  intros Happ Hc Hk w.
  destruct (Hc w) as [e1 [H1 P1]].
  unfold adds, bind in *.
  destruct (c w) as [a w'|reason w'|reason w']; simpl in H1.
  - destruct (Hk a w') as [e2 [H2 P2]].
    exists (e1 ++ e2). split; [|now apply Happ].
    unfold adds in H2. now rewrite H2, H1, app_assoc.
  - exists e1. now split.
  - exists e1. now split.
Qed.

Lemma emits_weaken {A : Type} (P Q : list event -> Prop) (c : M G A) :
  (forall evs, P evs -> Q evs) -> emits P c -> emits Q c.
Proof.
  intros HPQ Hc w. destruct (Hc w) as [evs [H1 H2]].
  exists evs. split; auto.
Qed.

End Traces.

(** ** The pace of key presses *)

Lemma paced_app (delay : Z) (e1 e2 : list event) :
  paced delay e1 -> paced delay e2 -> paced delay (e1 ++ e2).
Proof.
  induction 1; intros H2; simpl.
  - exact H2.
  - apply paced_press. auto.
  - apply paced_other; auto.
Qed.

(** In a paced trace each key press comes right after a sleep of the delay. *)
Lemma paced_split (delay : Z) (evs : list event) :
  paced delay evs ->
  forall pre keyStr post,
    evs = pre ++ EvPressKey keyStr :: post ->
    exists pre', pre = pre' ++ [EvSleep delay].
Proof.
  induction 1 as [|k0 evs Hevs IH|e evs He Hevs IH]; intros pre k post Heq.
  - destruct pre; discriminate.
  - destruct pre as [|e0 pre]; [discriminate|].
    injection Heq as <- Heq.
    destruct pre as [|e1 pre].
    + exists []. reflexivity.
    + injection Heq as <- Heq.
      destruct (IH _ _ _ Heq) as [pre' ->].
      exists (EvSleep delay :: EvPressKey k0 :: pre'). reflexivity.
  - destruct pre as [|e0 pre].
    + injection Heq as -> _. discriminate.
    + injection Heq as <- Heq.
      destruct (IH _ _ _ Heq) as [pre' ->].
      exists (e :: pre'). reflexivity.
Qed.

Create HintDb pace.

Section Pace.

Context {G : Type}.
Variable self : Input G.
Variable Contains : string -> matcher.

Let delay := pushKeyDelay self.

Lemma paced_one (e : event) : isPress e = false -> paced delay [e].
Proof. intros He. apply paced_other; [exact He|apply paced_nil]. Qed.

Lemma pace_bind {A B : Type} (c : M G A) (k : A -> M G B) :
  emits (paced delay) c -> (forall a, emits (paced delay) (k a)) ->
  emits (paced delay) (bind c k).
Proof. apply emits_bind. apply paced_app. Qed.

Lemma pace_ret {A : Type} (a : A) : emits (paced delay) (ret (G := G) a).
Proof. apply emits_ret, paced_nil. Qed.

Lemma pace_sleep (ms : Z) : emits (paced delay) (sleep self ms).
Proof.
  intros w. exists [EvSleep ms]. split; [reflexivity|now apply paced_one].
Qed.

Lemma pace_press (keyStr : string) : emits (paced delay) (press self keyStr).
Proof.
  intros w. exists [EvSleep delay; EvPressKey keyStr]. split.
  - unfold adds. simpl. now rewrite <- app_assoc.
  - apply paced_press, paced_nil.
Qed.

Lemma pace_guiLogUI (message : string) :
  emits (paced delay) (guiLogUI self message).
Proof.
  intros w. exists [EvLogUI message]. split; [reflexivity|now apply paced_one].
Qed.

Lemma pace_guiCurrentListContext :
  emits (paced delay) (guiCurrentListContext self).
Proof.
  intros w. exists [EvCurrentContext]. split; [|now apply paced_one].
  unfold adds, guiCurrentListContext.
  destruct (integrationTypes.CurrentContextIsList _ _); reflexivity.
Qed.

Lemma pace_viewViewBufferLines :
  emits (paced delay) (viewViewBufferLines self).
Proof.
  intros w. exists [EvViewBufferLines]. split; [reflexivity|now apply paced_one].
Qed.

Lemma pace_viewSelectedLineIdx :
  emits (paced delay) (viewSelectedLineIdx self).
Proof.
  intros w. exists [EvSelectedLineIdx]. split; [reflexivity|now apply paced_one].
Qed.

Lemma pace_assertThat (a : assertion) : emits (paced delay) (assertThat self a).
Proof.
  intros w. exists [EvAssert a]. split; [|now apply paced_one].
  unfold adds, assertThat.
  destruct (holds (assert self) a (app w)) as [g [reason|]]; reflexivity.
Qed.

Lemma pace_index (xs : list string) (i : nat) :
  emits (paced delay) (index (G := G) xs i).
Proof.
  intros w. exists []. split; [|apply paced_nil].
  unfold adds, index. destruct (nth_error xs i); simpl; now rewrite app_nil_r.
Qed.

Lemma pace_forEach {A : Type} (body : A -> M G unit) (xs : list A) :
  (forall x, emits (paced delay) (body x)) ->
  emits (paced delay) (forEach body xs).
Proof.
  intros Hbody. induction xs as [|x xs IH]; simpl.
  - apply pace_ret.
  - apply pace_bind; auto.
Qed.

Lemma pace_times (n : nat) (body : M G unit) :
  emits (paced delay) body -> emits (paced delay) (times n body).
Proof.
  intros Hbody. induction n as [|n IH]; simpl.
  - apply pace_ret.
  - apply pace_bind; auto.
Qed.

Lemma pace_retry {A : Type} (n : nat) (check : M G (A * (bool * string)))
    (message : string) :
  emits (paced delay) check -> emits (paced delay) (retry self n check message).
Proof.
  intros Hcheck. revert message. induction n as [|n IH]; intros message; simpl.
  - intros w. exists []. split; [|apply paced_nil].
    unfold adds. simpl. now rewrite app_nil_r.
  - apply pace_bind; [exact Hcheck|].
    intros [a [[|] reason]].
    + apply pace_ret.
    + apply pace_bind; [apply pace_sleep|auto].
Qed.

#[local] Hint Resolve pace_ret pace_sleep pace_press pace_guiLogUI
  pace_guiCurrentListContext pace_viewViewBufferLines
  pace_viewSelectedLineIdx pace_assertThat pace_index : pace.

Ltac pace :=
  repeat first
    [ solve [auto with pace]
    | apply pace_forEach; intros ?
    | apply pace_times
    | apply pace_retry
    | apply pace_bind; [|intros ?] ].

Lemma pace_Type (content : string) : emits (paced delay) (Type_ self content).
Proof. unfold Type_. pace. Qed.

Lemma pace_NavigateToListItem (m : matcher) :
  emits (paced delay) (NavigateToListItem self m).
Proof.
  unfold NavigateToListItem, locateListItem, assertWithRetries, findMatch,
    moveSelection, forUp, forDown, NextItem, PreviousItem.
  pace.
  destruct (_ =? _); [|destruct (_ <? _)]; pace.
Qed.

#[local] Hint Resolve pace_Type pace_NavigateToListItem : pace.

Lemma pace_perform (i : intent) : emits (paced delay) (perform self Contains i).
Proof.
  destruct i; simpl; auto with pace;
    unfold Press, SwitchToStatusWindow, SwitchToFilesWindow,
      SwitchToBranchesWindow, SwitchToCommitsWindow, SwitchToStashWindow,
      Confirm, Enter, Cancel, PrimaryAction, NextItem, PreviousItem,
      ContinueRebase, ContinueMerge, Press, Wait, LogUI, Log,
      AcceptConfirmation, DenyConfirmation, Prompt, Typeahead, Menu, Alert,
      Confirm, Cancel;
    pace.
Qed.

End Pace.

(** ** Assertions before key presses *)

Lemma behind_nil (evs : list event) : behind [] evs.
Proof. intros pre k post _. exists pre. reflexivity. Qed.

Lemma behind_cons (a : assertion) (asserts : list assertion)
    (evs : list event) :
  behind asserts evs -> behind (a :: asserts) (EvAssert a :: evs).
Proof.
  intros H pre k post Heq.
  destruct pre as [|e pre]; [discriminate|].
  injection Heq as <- Heq.
  destruct (H _ _ _ Heq) as [rest ->].
  exists rest. reflexivity.
Qed.

Lemma behind_quiet (a : assertion) (asserts : list assertion) :
  behind asserts [EvAssert a].
Proof.
  intros pre k post Heq.
  destruct pre as [|e [|e' pre]]; discriminate.
Qed.

Section Flows.

Context {G : Type}.
Variable self : Input G.

Lemma behind_assertThat (a : assertion) (asserts : list assertion)
    (k : M G unit) :
  emits (behind asserts) k ->
  emits (behind (a :: asserts)) (assertThat self a ;; k).
Proof.
  intros Hk w.
  destruct (holds (assert self) a (app w)) as [g [reason|]] eqn:Hholds.
  - exists [EvAssert a]. split; [|apply behind_quiet].
    unfold adds, bind, assertThat. now rewrite Hholds.
  - destruct (Hk (emit (EvAssert a) g w)) as [evs [Hadds Hbehind]].
    exists (EvAssert a :: evs). split; [|now apply behind_cons].
    unfold adds, bind, assertThat in *. rewrite Hholds, Hadds.
    simpl. now rewrite <- app_assoc.
Qed.

Lemma behind_any {A : Type} (c : M G A) :
  emits (paced (pushKeyDelay self)) c -> emits (behind []) c.
Proof. apply emits_weaken. intros evs _. apply behind_nil. Qed.

Lemma behind_runFlow (f : modalFlow) :
  emits (behind (expectedModal f)) (runFlow self f).
Proof.
  destruct f; simpl;
    unfold AcceptConfirmation, DenyConfirmation, Prompt, Menu;
    repeat apply behind_assertThat; apply behind_any;
    unfold Confirm, Cancel;
    repeat first
      [ apply pace_press | apply pace_Type | apply pace_NavigateToListItem
      | apply pace_bind; [|intros ?] ].
Qed.

End Flows.

(** C7: in each composite modal flow ([AcceptConfirmation],
    [DenyConfirmation], [Prompt], [Menu]) the assertions of the expected
    modal kind and of the expected title (and content, for the
    confirmations) are made before any key press: whatever precedes a key
    press in the events of the flow begins with those assertions. *)
Theorem modal_flow_asserts_before_acting :
  forall (G : Type) (self : Input G) (f : modalFlow) (w : World G)
         (pre : list event) (keyStr : string) (post : list event),
    events_of (runFlow self f) w = pre ++ EvPressKey keyStr :: post ->
    exists rest, pre = map EvAssert (expectedModal f) ++ rest.
Proof.
  intros G self f w pre keyStr post Heq.
  destruct (behind_runFlow self f w) as [evs [Hadds Hbehind]].
  rewrite (events_of_adds _ _ _ Hadds) in Heq.
  exact (Hbehind _ _ _ Heq).
Qed.

Lemma modal_flow_asserts_before_acting_witness :
  let title := Example.containing "Menu" in
  let option := Example.containing "commit 04" in
  exists rest,
    [EvAssert InMenu; EvAssert (CurrentViewTitle title);
     EvAssert InListContext; EvCurrentContext; EvViewBufferLines;
     EvSelectedLineIdx; EvSleep 30]
    = map EvAssert (expectedModal (FlowMenu title option)) ++ rest.
Proof.
  intros title option.
  apply (modal_flow_asserts_before_acting _ Example.restingInput
           (FlowMenu title option) (Example.start 0 0)
           [EvAssert InMenu; EvAssert (CurrentViewTitle title);
            EvAssert InListContext; EvCurrentContext; EvViewBufferLines;
            EvSelectedLineIdx; EvSleep 30]
           "<down>"
           [EvAssert (SelectedLine option); EvSleep 30; EvPressKey "<enter>"]).
  reflexivity.
Defined.

(** ** Typing a text *)

Lemma presses_flat_map (delay : Z) (keyStrs : list string) :
  presses (flat_map (fun keyStr => [EvSleep delay; EvPressKey keyStr]) keyStrs)
  = keyStrs.
Proof.
  induction keyStrs as [|k ks IH]; simpl; [reflexivity|now rewrite IH].
Qed.

Lemma forEach_press {G A : Type} (self : Input G) (f : A -> string)
    (xs : list A) (w : World G) :
  exists w',
    forEach (fun x => press self (f x)) xs w = Done tt w'
    /\ trace w' = trace w
         ++ flat_map (fun keyStr => [EvSleep (pushKeyDelay self);
                                     EvPressKey keyStr]) (map f xs).
Proof.
  revert w. induction xs as [|x xs IH]; intros w; simpl.
  - exists w. split; [reflexivity|now rewrite app_nil_r].
  - unfold bind at 1. simpl.
    match goal with |- context [forEach _ xs ?w1] =>
      destruct (IH w1) as [w' [Hrun Htrace]] end.
    exists w'. split; [exact Hrun|].
    rewrite Htrace. simpl. now rewrite <- !app_assoc.
Qed.

(** C10: [Enter] is [Confirm], and [ContinueRebase] is [ContinueMerge]:
    from every world each pair has the same outcome, the same state of the
    application and the same trace of key presses and assertions. *)
Theorem Enter_is_Confirm_and_ContinueRebase_is_ContinueMerge :
  forall (G : Type) (self : Input G) (Contains : string -> matcher)
         (w : World G),
    Enter self w = Confirm self w
    /\ ContinueRebase self Contains w = ContinueMerge self Contains w.
Proof.
  intros G self Contains w. split; reflexivity.
Qed.

(** On a text of ASCII characters the runes are the bytes, and [Type]
    presses the characters of the text one by one. *)
Lemma char_of_byte_of (c : ascii) : char_of (byte_of c) = c.
Proof.
  unfold char_of, byte_of. now rewrite N2Z.id, ascii_N_embedding.
Qed.

Lemma Type_ascii_keys (content : string) :
  Forall (fun c => byte_of c < 0x80) (list_ascii_of_string content) ->
  map string_of_rune (runes content)
  = map (fun c => String c EmptyString) (list_ascii_of_string content).
Proof.
  unfold runes.
  induction content as [|c t IH]; intros Hascii; [reflexivity|].
  inversion Hascii as [|c' l Hc Ht]; subst.
  cbn [runes_from decodeRune list_ascii_of_string map].
  destruct (Z.ltb_spec (byte_of c) 0x80) as [_|]; [|lia].
  cbn [Nat.sub map]. rewrite (IH Ht). f_equal.
  assert (Hpos : 0 <= byte_of c) by (unfold byte_of; lia).
  unfold string_of_rune, in_range.
  destruct (Z.ltb_spec (byte_of c) 0); [lia|].
  destruct (Z.ltb_spec 0x10FFFF (byte_of c)); [lia|].
  destruct (Z.leb_spec 0xD800 (byte_of c)); [lia|].
  destruct (Z.ltb_spec (byte_of c) 0x80); [|lia].
  simpl. now rewrite char_of_byte_of.
Qed.

(** ** The check of one attempt *)

Lemma last_cons {A : Type} (x d : A) (l : list A) :
  last (x :: l) d = last l x.
Proof.
  revert x d. induction l as [|y l IH]; intros x d; [reflexivity|].
  change (last (x :: y :: l) d) with (last (y :: l) d).
  now rewrite (IH y d), (IH y x).
Qed.

(** The scan collects the matching lines in order and ends on the index
    of the last of them. *)
Lemma scanLines_spec (m : matcher) (lines : list string) :
  forall (i : Z) (matches : list string) (matchIndex : Z),
    scanLines m lines i matches matchIndex
    = (matches ++ matching m lines, last (matchIndices m lines i) matchIndex).
Proof.
  induction lines as [|line rest IH]; intros i matches matchIndex; simpl.
  - now rewrite app_nil_r.
  - destruct (fst (test m line)).
    + rewrite IH, <- app_assoc, last_cons. reflexivity.
    + apply IH.
Qed.

Lemma matchIndices_length (m : matcher) (lines : list string) (i : Z) :
  List.length (matchIndices m lines i) = List.length (matching m lines).
Proof.
  revert i. induction lines as [|line rest IH]; intros i; simpl; [reflexivity|].
  destruct (fst (test m line)); simpl; now rewrite IH.
Qed.

Lemma checkLines_many (m : matcher) (lines : list string) :
  (2 <= List.length (matching m lines))%nat ->
  checkLines m lines
  = (last (matchIndices m lines 0) (-1),
     (false, manyMatches m (matching m lines))).
Proof.
  intros Hlen. unfold checkLines. rewrite scanLines_spec. simpl.
  destruct (Nat.ltb_spec 1 (List.length (matching m lines))); [reflexivity|lia].
Qed.

Lemma checkLines_none (m : matcher) (lines : list string) :
  matching m lines = [] ->
  checkLines m lines = (-1, (false, noMatch m)).
Proof.
  intros Hnone. unfold checkLines. rewrite scanLines_spec, Hnone. simpl.
  assert (Hidx : matchIndices m lines 0 = []).
  { apply length_zero_iff_nil. now rewrite matchIndices_length, Hnone. }
  now rewrite Hidx.
Qed.

Lemma checkLines_unique (m : matcher) (lines : list string) (idx : Z) :
  matchIndices m lines 0 = [idx] ->
  checkLines m lines = (idx, (true, EmptyString)).
Proof.
  intros Hone. unfold checkLines. rewrite scanLines_spec, Hone. simpl.
  assert (Hlen : List.length (matching m lines) = 1%nat).
  { now rewrite <- (matchIndices_length m lines 0), Hone. }
  now rewrite Hlen.
Qed.

Lemma findMatch_checkLines {G : Type} (self : Input G) (m : matcher)
    (w w' : World G) (lines : list string) :
  viewViewBufferLines self w = Done lines w' ->
  findMatch self m w = Done (checkLines m lines) w'.
Proof.
  intros Hread. unfold findMatch, bind. now rewrite Hread.
Qed.

(** C3: when two or more of the visible lines read by an attempt satisfy
    the matcher, the check of that attempt does not succeed, and its reason
    gives the number of matches, the name of the matcher and the matching
    lines, one per line; it is not the reason of the zero-match case. *)
Theorem several_matches_rejected :
  forall (G : Type) (self : Input G) (m : matcher) (w w' : World G)
         (lines : list string),
    viewViewBufferLines self w = Done lines w' ->
    (2 <= List.length (matching m lines))%nat ->
    exists (matchIndex : Z) (reason : string),
      findMatch self m w = Done (matchIndex, (false, reason)) w'
      /\ reason
         = ("Found " ++ itoa (List.length (matching m lines))
              ++ " matches for `" ++ name m
              ++ "`, expected only a single match. Lines:" ++ newline
              ++ Join (matching m lines) newline)%string
      /\ reason <> ("Could not find item matching: " ++ name m)%string.
Proof.
  intros G self m w w' lines Hread Hmany.
  exists (last (matchIndices m lines 0) (-1)),
         (manyMatches m (matching m lines)).
  split; [|split].
  - rewrite (findMatch_checkLines _ _ _ _ _ Hread).
    now rewrite checkLines_many.
  - reflexivity.
  - unfold manyMatches. simpl. discriminate.
Qed.

Lemma several_matches_rejected_witness :
  exists (matchIndex : Z) (reason : string),
    findMatch Example.restingInput (Example.containing "commit 0")
      (Example.start 0 0)
    = Done (matchIndex, (false, reason))
        (emit EvViewBufferLines (app (Example.start 0 0)) (Example.start 0 0))
    /\ reason
       = ("Found " ++ itoa (List.length
                              (matching (Example.containing "commit 0")
                                 Example.commits))
            ++ " matches for `" ++ name (Example.containing "commit 0")
            ++ "`, expected only a single match. Lines:" ++ newline
            ++ Join (matching (Example.containing "commit 0") Example.commits)
                 newline)%string
    /\ reason
       <> ("Could not find item matching: "
             ++ name (Example.containing "commit 0"))%string.
Proof.
  apply (several_matches_rejected _ Example.restingInput
           (Example.containing "commit 0") (Example.start 0 0)).
  - reflexivity.
  - vm_compute. lia.
Defined.

(** C4: when none of the visible lines read by an attempt satisfies the
    matcher, the check of that attempt fails, and its reason is "Could not
    find item matching: " followed by the name of the matcher. *)
Theorem no_match_rejected :
  forall (G : Type) (self : Input G) (m : matcher) (w w' : World G)
         (lines : list string),
    viewViewBufferLines self w = Done lines w' ->
    matching m lines = [] ->
    findMatch self m w
    = Done (-1, (false, ("Could not find item matching: " ++ name m)%string)) w'.
Proof.
  intros G self m w w' lines Hread Hnone.
  rewrite (findMatch_checkLines _ _ _ _ _ Hread).
  now rewrite checkLines_none.
Qed.

Lemma no_match_rejected_witness :
  findMatch Example.restingInput (Example.containing "commit 9")
    (Example.start 0 0)
  = Done (-1, (false, "Could not find item matching: commit 9"%string))
      (emit EvViewBufferLines (app (Example.start 0 0)) (Example.start 0 0)).
Proof.
  apply (no_match_rejected _ Example.restingInput
           (Example.containing "commit 9") (Example.start 0 0) _
           Example.commits).
  - reflexivity.
  - reflexivity.
Defined.

(** ** Switching panels *)

Section Panels.

Context {G : Type}.
Variable self : Input G.

Lemma inBounds_press_assert (keyStr : string) (a : assertion) (w : World G) :
  inBounds ((press self keyStr ;; assertThat self a) w).
Proof.
  unfold bind, press, Wait, sleep, guiPressKey, assertThat. simpl.
  destruct (holds _ _ _) as [g [reason|]]; exact I.
Qed.

Lemma inBounds_switch (i : nat) (a : assertion) (w : World G) :
  (i < List.length (config.JumpToBlock (config.Universal (keys self))))%nat ->
  inBounds ((keyStr <- index (config.JumpToBlock (config.Universal (keys self))) i ;;
             press self keyStr ;; assertThat self a) w).
Proof.
  intros Hi. unfold bind at 1. unfold index.
  destruct (nth_error _ i) as [keyStr|] eqn:Hnth.
  - apply inBounds_press_assert.
  - apply nth_error_None in Hnth. lia.
Qed.

End Panels.

(** C8, as the code has it: with at least five entries in the "jump to
    block" family, each of the five panel-switch operations indexes the
    family within bounds.  ([SwitchToStashWindow] reads the entry of
    index 4.) *)
Theorem panel_switches_in_bounds :
  forall (G : Type) (self : Input G) (w : World G),
    (5 <= List.length (config.JumpToBlock (config.Universal (keys self))))%nat ->
    inBounds (SwitchToStatusWindow self w)
    /\ inBounds (SwitchToFilesWindow self w)
    /\ inBounds (SwitchToBranchesWindow self w)
    /\ inBounds (SwitchToCommitsWindow self w)
    /\ inBounds (SwitchToStashWindow self w).
Proof.
  intros G self w Hlen.
  repeat split; apply inBounds_switch; lia.
Qed.

Lemma panel_switches_in_bounds_witness :
  inBounds (SwitchToStatusWindow Example.restingInput (Example.start 0 0))
  /\ inBounds (SwitchToFilesWindow Example.restingInput (Example.start 0 0))
  /\ inBounds (SwitchToBranchesWindow Example.restingInput (Example.start 0 0))
  /\ inBounds (SwitchToCommitsWindow Example.restingInput (Example.start 0 0))
  /\ inBounds (SwitchToStashWindow Example.restingInput (Example.start 0 0)).
Proof.
  apply (panel_switches_in_bounds _ Example.restingInput (Example.start 0 0)).
  simpl. lia.
Defined.

(** C8 as stated fails: a family of four entries has at least four, and
    [SwitchToStashWindow] panics on it, reading index 4. *)
Lemma panel_switches_four_entries_counterexample :
  (4 <= List.length (config.JumpToBlock
                       (config.Universal (keys Example.fourBlockInput))))%nat
  /\ SwitchToStashWindow Example.fourBlockInput (Example.start 0 0)
     = Panic "index out of range" (Example.start 0 0)
  /\ ~ inBounds (SwitchToStashWindow Example.fourBlockInput (Example.start 0 0)).
Proof.
  split; [simpl; lia|]. split; [reflexivity|].
  intros H. exact H.
Qed.

(** ** Navigating to a list item *)

Lemma presses_app (e1 e2 : list event) :
  presses (e1 ++ e2) = presses e1 ++ presses e2.
Proof.
  induction e1 as [|e e1 IH]; simpl; [reflexivity|].
  destruct e; simpl; now rewrite IH.
Qed.

Lemma flat_map_repeat_app (delay : Z) (keyStr : string) (n : nat) :
  flat_map (fun k => [EvSleep delay; EvPressKey k]) (repeat keyStr (S n))
  = [EvSleep delay; EvPressKey keyStr]
      ++ flat_map (fun k => [EvSleep delay; EvPressKey k]) (repeat keyStr n).
Proof. reflexivity. Qed.

(** The indices found are indices of matching lines. *)
Lemma matchIndices_In (m : matcher) (lines : list string) :
  forall (i j : Z),
    In j (matchIndices m lines i) ->
    i <= j < i + Z.of_nat (List.length lines)
    /\ exists line,
         nth_error lines (Z.to_nat (j - i)) = Some line
         /\ fst (test m line) = true.
Proof.
  induction lines as [|line rest IH]; intros i j Hin; simpl in Hin.
  - contradiction.
  - assert (Hrest : In j (matchIndices m rest (i + 1)) ->
                    i <= j < i + Z.of_nat (List.length (line :: rest))
                    /\ exists line',
                         nth_error (line :: rest) (Z.to_nat (j - i)) = Some line'
                         /\ fst (test m line') = true).
    { intros H. destruct (IH _ _ H) as [Hrange [line' [Hnth Htest]]].
      simpl List.length. split; [lia|].
      exists line'. split; [|exact Htest].
      replace (Z.to_nat (j - i)) with (S (Z.to_nat (j - (i + 1)))) by lia.
      exact Hnth. }
    destruct (fst (test m line)) eqn:Htest; [|auto].
    destruct Hin as [<-|Hin]; [|auto].
    simpl List.length. split; [lia|].
    exists line. rewrite Z.sub_diag. split; [reflexivity|exact Htest].
Qed.

Lemma checkLines_ok (m : matcher) (lines : list string) (idx : Z)
    (reason : string) :
  checkLines m lines = (idx, (true, reason)) ->
  matchIndices m lines 0 = [idx].
Proof.
  unfold checkLines. rewrite scanLines_spec. simpl.
  rewrite <- (matchIndices_length m lines 0).
  destruct (matchIndices m lines 0) as [|j [|j' js]]; simpl.
  - discriminate.
  - intros H. injection H as <- _. reflexivity.
  - discriminate.
Qed.

Section Navigation.

Context {G : Type}.
Variable self : Input G.

Local Abbreviation driver := (gui self).
Local Abbreviation universal := (config.Universal (keys self)).
Local Abbreviation delay := (pushKeyDelay self).

Lemma runs_bind {A B : Type} (c : M G A) (k : A -> M G B)
    (w w1 w2 : World G) (a : A) (b : B) (e1 e2 : list event) :
  runs c w a e1 w1 -> runs (k a) w1 b e2 w2 ->
  runs (bind c k) w b (e1 ++ e2) w2.
Proof.
  intros [Hc Ht1] [Hk Ht2]. split.
  - unfold bind. now rewrite Hc.
  - now rewrite Ht2, Ht1, app_assoc.
Qed.

Lemma runs_adds {A : Type} (c : M G A) (w w' : World G) (a : A)
    (evs : list event) :
  runs c w a evs w' -> adds c w evs.
Proof. intros [Hc Ht]. unfold adds. now rewrite Hc. Qed.

Lemma showing_emit (lines : list string) (s : Z) (w : World G) (e : event)
    (g : G) :
  showing self lines s w -> sameView self (app w) g ->
  showing self lines s (emit e g w).
Proof.
  intros (Hctx & Hlines & Hsel) (Sctx & Slines & Ssel).
  unfold showing. simpl. repeat split; congruence.
Qed.

(** A poll that returns, returns from an attempt that succeeded. *)
Lemma retry_done {A : Type} (check : M G (A * (bool * string))) (n : nat) :
  forall (message : string) (w w1 : World G) (a : A),
    retry self n check message w = Done a w1 ->
    exists w0 reason, check w0 = Done (a, (true, reason)) w1.
Proof.
  induction n as [|n IH]; intros message w w1 a Hrun; simpl in Hrun.
  - discriminate.
  - unfold bind at 1 in Hrun.
    destruct (check w) as [[a' [[|] reason]] w'|reason w'|reason w'] eqn:Hcheck;
      try discriminate.
    + injection Hrun as <- <-. eauto.
    + unfold bind, sleep in Hrun. simpl in Hrun. eauto.
Qed.

Hypothesis Hrest : quiescent self.

Lemma sleep_runs (lines : list string) (s ms : Z) (w : World G) :
  showing self lines s w ->
  exists w', runs (sleep self ms) w tt [EvSleep ms] w'
             /\ showing self lines s w'.
Proof.
  intros Hshow. eexists. split; [split; reflexivity|].
  apply showing_emit; [exact Hshow|apply (rest_elapse self Hrest)].
Qed.

Lemma assertThat_runs (a : assertion) (lines : list string) (s : Z)
    (w : World G) :
  showing self lines s w ->
  snd (holds (assert self) a (app w)) = None ->
  exists w', runs (assertThat self a) w tt [EvAssert a] w'
             /\ showing self lines s w'.
Proof.
  intros Hshow Hpass.
  pose proof (rest_holds self Hrest a (app w)) as Hsame.
  unfold runs, assertThat.
  destruct (holds (assert self) a (app w)) as [g failure].
  simpl in Hpass, Hsame. subst failure.
  eexists. split; [split; reflexivity|].
  now apply showing_emit.
Qed.

Lemma guiCurrentListContext_runs (lines : list string) (s : Z) (w : World G) :
  showing self lines s w ->
  exists w', runs (guiCurrentListContext self) w tt [EvCurrentContext] w'
             /\ showing self lines s w'.
Proof.
  intros Hshow.
  pose proof (rest_redraw self Hrest (app w)) as Hsame.
  assert (Hshow' : showing self lines s
                     (emit EvCurrentContext
                        (integrationTypes.redraw driver (app w)) w))
    by now apply showing_emit.
  unfold runs, guiCurrentListContext.
  destruct Hshow' as (Hctx & _). simpl in Hctx.
  rewrite Hctx.
  eexists. split; [split; reflexivity|].
  now apply showing_emit.
Qed.

Lemma viewViewBufferLines_runs (lines : list string) (s : Z) (w : World G) :
  showing self lines s w ->
  exists w', runs (viewViewBufferLines self) w lines [EvViewBufferLines] w'
             /\ showing self lines s w'.
Proof.
  intros Hshow.
  pose proof (rest_redraw self Hrest (app w)) as Hsame.
  assert (Hshow' : showing self lines s
                     (emit EvViewBufferLines
                        (integrationTypes.redraw driver (app w)) w))
    by now apply showing_emit.
  eexists. split; [|exact Hshow'].
  split; [|reflexivity].
  unfold viewViewBufferLines.
  destruct Hshow' as (_ & Hlines & _). simpl in Hlines.
  now rewrite Hlines.
Qed.

Lemma viewSelectedLineIdx_runs (lines : list string) (s : Z) (w : World G) :
  showing self lines s w ->
  exists w', runs (viewSelectedLineIdx self) w s [EvSelectedLineIdx] w'
             /\ showing self lines s w'.
Proof.
  intros Hshow.
  pose proof (rest_redraw self Hrest (app w)) as Hsame.
  assert (Hshow' : showing self lines s
                     (emit EvSelectedLineIdx
                        (integrationTypes.redraw driver (app w)) w))
    by now apply showing_emit.
  eexists. split; [|exact Hshow'].
  split; [|reflexivity].
  unfold viewSelectedLineIdx.
  destruct Hshow' as (_ & _ & Hsel). simpl in Hsel.
  now rewrite Hsel.
Qed.

Hypothesis Hpass : assertionsPass self.

Lemma SelectedLine_runs (m : matcher) (lines : list string) (idx : Z)
    (w : World G) :
  showing self lines idx w ->
  matchIndices m lines 0 = [idx] ->
  exists w', runs (assertThat self (SelectedLine m)) w tt
               [EvAssert (SelectedLine m)] w'
             /\ showing self lines idx w'.
Proof.
  intros Hshow Hone.
  apply assertThat_runs; [exact Hshow|].
  destruct (matchIndices_In m lines 0 idx) as [Hrange [line [Hnth Htest]]].
  { rewrite Hone. now left. }
  destruct Hshow as (_ & Hlines & Hsel).
  apply (pass_SelectedLine self Hpass m (app w) line).
  - lia.
  - rewrite Hlines, Hsel. now rewrite Z.sub_0_r in Hnth.
  - exact Htest.
Qed.

Hypothesis Hkeys : listKeys self.

Lemma NextItem_runs (lines : list string) (s : Z) (w : World G) :
  showing self lines s w ->
  s + 1 < Z.of_nat (List.length lines) ->
  exists w',
    runs (NextItem self) w tt
      [EvSleep delay; EvPressKey (config.NextItem universal)] w'
    /\ showing self lines (s + 1) w'.
Proof.
  intros Hshow Hroom.
  destruct (sleep_runs lines s delay w Hshow) as [w1 [R1 S1]].
  pose proof (rest_redraw self Hrest (app w1)) as Hsame.
  assert (S2 : showing self lines s
                 (emit EvCurrentContext
                    (integrationTypes.redraw driver (app w1)) w1))
    by now apply showing_emit.
  destruct S2 as (Hctx & Hlines & Hsel). simpl in Hctx, Hlines, Hsel.
  destruct (key_next self Hkeys (integrationTypes.redraw driver (app w1)))
    as (Kctx & Klines & Ksel).
  { rewrite Hlines, Hsel. exact Hroom. }
  eexists. split.
  - unfold NextItem, press, Wait.
    apply (runs_bind _ _ _ _ _ _ _ [EvSleep delay] [EvPressKey _] R1).
    split; reflexivity.
  - unfold showing. simpl.
    repeat split; congruence.
Qed.

Lemma PreviousItem_runs (lines : list string) (s : Z) (w : World G) :
  showing self lines s w ->
  0 < s ->
  exists w',
    runs (PreviousItem self) w tt
      [EvSleep delay; EvPressKey (config.PrevItem universal)] w'
    /\ showing self lines (s - 1) w'.
Proof.
  intros Hshow Hroom.
  destruct (sleep_runs lines s delay w Hshow) as [w1 [R1 S1]].
  pose proof (rest_redraw self Hrest (app w1)) as Hsame.
  assert (S2 : showing self lines s
                 (emit EvCurrentContext
                    (integrationTypes.redraw driver (app w1)) w1))
    by now apply showing_emit.
  destruct S2 as (Hctx & Hlines & Hsel). simpl in Hctx, Hlines, Hsel.
  destruct (key_prev self Hkeys (integrationTypes.redraw driver (app w1)))
    as (Kctx & Klines & Ksel).
  { rewrite Hsel. exact Hroom. }
  eexists. split.
  - unfold PreviousItem, press, Wait.
    apply (runs_bind _ _ _ _ _ _ _ [EvSleep delay] [EvPressKey _] R1).
    split; reflexivity.
  - unfold showing. simpl.
    repeat split; congruence.
Qed.

Lemma forUp_runs (lines : list string) (n : nat) :
  forall (s : Z) (w : World G),
    showing self lines s w ->
    s + Z.of_nat n < Z.of_nat (List.length lines) ->
    exists w',
      runs (times n (NextItem self)) w tt
        (flat_map (fun k => [EvSleep delay; EvPressKey k])
           (repeat (config.NextItem universal) n)) w'
      /\ showing self lines (s + Z.of_nat n) w'.
Proof.
  induction n as [|n IH]; intros s w Hshow Hroom.
  - exists w. split; [split; [reflexivity|simpl; now rewrite app_nil_r]|].
    now rewrite Z.add_0_r.
  - destruct (NextItem_runs lines s w Hshow) as [w1 [R1 S1]]; [lia|].
    destruct (IH (s + 1) w1 S1) as [w2 [R2 S2]]; [lia|].
    exists w2. split.
    + rewrite flat_map_repeat_app. simpl times.
      exact (runs_bind _ _ _ _ _ _ _ _ _ R1 R2).
    + now replace (s + Z.of_nat (S n)) with (s + 1 + Z.of_nat n) by lia.
Qed.

Lemma forDown_runs (lines : list string) (n : nat) :
  forall (s : Z) (w : World G),
    showing self lines s w ->
    0 <= s - Z.of_nat n ->
    exists w',
      runs (times n (PreviousItem self)) w tt
        (flat_map (fun k => [EvSleep delay; EvPressKey k])
           (repeat (config.PrevItem universal) n)) w'
      /\ showing self lines (s - Z.of_nat n) w'.
Proof.
  induction n as [|n IH]; intros s w Hshow Hroom.
  - exists w. split; [split; [reflexivity|simpl; now rewrite app_nil_r]|].
    now rewrite Z.sub_0_r.
  - destruct (PreviousItem_runs lines s w Hshow) as [w1 [R1 S1]]; [lia|].
    destruct (IH (s - 1) w1 S1) as [w2 [R2 S2]]; [lia|].
    exists w2. split.
    + rewrite flat_map_repeat_app. simpl times.
      exact (runs_bind _ _ _ _ _ _ _ _ _ R1 R2).
    + now replace (s - Z.of_nat (S n)) with (s - 1 - Z.of_nat n) by lia.
Qed.

Lemma moveSelection_runs (m : matcher) (lines : list string) (s idx : Z)
    (w : World G) :
  showing self lines s w ->
  matchIndices m lines 0 = [idx] ->
  exists w',
    runs (moveSelection self m s idx) w tt
      (flat_map (fun k => [EvSleep delay; EvPressKey k])
         (repeat (if s <? idx then config.NextItem universal
                  else config.PrevItem universal)
            (Z.to_nat (Z.abs (idx - s))))
       ++ [EvAssert (SelectedLine m)]) w'
    /\ showing self lines idx w'.
Proof.
  intros Hshow Hone.
  destruct (matchIndices_In m lines 0 idx) as [Hrange _].
  { rewrite Hone. now left. }
  unfold moveSelection.
  destruct (Z.eqb_spec s idx) as [->|Hne].
  - rewrite Z.sub_diag. simpl.
    now apply SelectedLine_runs.
  - destruct (Z.ltb_spec s idx) as [Hlt|Hge].
    + destruct (forUp_runs lines (Z.to_nat (idx - s)) s w Hshow)
        as [w1 [R1 S1]]; [lia|].
      replace (s + Z.of_nat (Z.to_nat (idx - s))) with idx in S1 by lia.
      destruct (SelectedLine_runs m lines idx w1 S1 Hone) as [w2 [R2 S2]].
      exists w2. split; [|exact S2].
      replace (Z.to_nat (Z.abs (idx - s))) with (Z.to_nat (idx - s)) by lia.
      exact (runs_bind _ _ _ _ _ _ _ _ _ R1 R2).
    + destruct (forDown_runs lines (Z.to_nat (s - idx)) s w Hshow)
        as [w1 [R1 S1]]; [lia|].
      replace (s - Z.of_nat (Z.to_nat (s - idx))) with idx in S1 by lia.
      destruct (SelectedLine_runs m lines idx w1 S1 Hone) as [w2 [R2 S2]].
      exists w2. split; [|exact S2].
      replace (Z.to_nat (Z.abs (idx - s))) with (Z.to_nat (s - idx)) by lia.
      exact (runs_bind _ _ _ _ _ _ _ _ _ R1 R2).
Qed.

Hypothesis Hattempts : (0 < maxAttempts (assert self))%nat.

(** At rest, with one matching line, the poll succeeds at its first
    attempt. *)
Lemma locateListItem_runs (m : matcher) (lines : list string) (s idx : Z)
    (w : World G) :
  showing self lines s w ->
  matchIndices m lines 0 = [idx] ->
  exists w',
    runs (locateListItem self m) w idx
      [EvAssert InListContext; EvCurrentContext; EvViewBufferLines] w'
    /\ showing self lines s w'.
Proof.
  intros Hshow Hone.
  destruct (assertThat_runs InListContext lines s w Hshow) as [w1 [R1 S1]].
  { apply (pass_InListContext self Hpass). apply Hshow. }
  destruct (guiCurrentListContext_runs lines s w1 S1) as [w2 [R2 S2]].
  destruct (viewViewBufferLines_runs lines s w2 S2) as [w3 [R3 S3]].
  exists w3. split; [|exact S3].
  unfold locateListItem.
  apply (runs_bind _ _ _ _ _ _ _ [EvAssert InListContext]
           [EvCurrentContext; EvViewBufferLines] R1).
  apply (runs_bind _ _ _ _ _ _ _ [EvCurrentContext] [EvViewBufferLines] R2).
  unfold assertWithRetries.
  destruct (maxAttempts (assert self)) as [|n]; [lia|].
  destruct R3 as [Hread Htrace]. split; [|exact Htrace].
  simpl. unfold bind at 1.
  rewrite (findMatch_checkLines _ _ _ _ _ Hread).
  now rewrite (checkLines_unique _ _ _ Hone).
Qed.

End Navigation.

Lemma presses_paced_keys (delay : Z) (keyStrs : list string)
    (before after : list event) :
  presses before = [] -> presses after = [] ->
  presses (before
             ++ flat_map (fun k => [EvSleep delay; EvPressKey k]) keyStrs
             ++ after)
  = keyStrs.
Proof.
  intros Hbefore Hafter.
  now rewrite !presses_app, Hbefore, Hafter, presses_flat_map, app_nil_r.
Qed.



(** ** Where the selected index is read *)

Lemma bind_done {G A B : Type} (c : M G A) (k : A -> M G B)
    (w w2 : World G) (b : B) :
  bind c k w = Done b w2 ->
  exists a w1, c w = Done a w1 /\ k a w1 = Done b w2.
Proof.
  unfold bind. destruct (c w) as [a w1|reason w1|reason w1]; try discriminate.
  intros H. exists a, w1. now split.
Qed.

(** The world in which the poll of [NavigateToListItem] returns is the one
    just after the read of the visible lines in which exactly one line
    matched. *)
Lemma locateListItem_done {G : Type} (self : Input G) (m : matcher)
    (w w1 : World G) (matchIndex : Z) :
  locateListItem self m w = Done matchIndex w1 ->
  matchIndices m (integrationTypes.ViewBufferLines (gui self) (app w1)) 0
  = [matchIndex]
  /\ exists before, trace w1 = before ++ [EvViewBufferLines].
Proof.
  unfold locateListItem. intros H.
  apply bind_done in H. destruct H as [[] [wa [_ H]]].
  apply bind_done in H. destruct H as [[] [wb [_ H]]].
  apply retry_done in H. destruct H as [w0 [reason H]].
  unfold findMatch, bind, viewViewBufferLines, ret in H.
  injection H as Hcheck <-. simpl.
  split; [exact (checkLines_ok _ _ _ _ Hcheck)|].
  exists (trace w0). reflexivity.
Qed.

(** C2, as the code has it: the match index comes from the last snapshot
    of the poll, and the selected index is read by a call of its own,
    [view.SelectedLineIdx()], made once the poll has returned, on what the
    application shows by then; the key presses are computed from that
    later read. *)
Theorem selected_index_read_after_the_poll :
  forall (G : Type) (self : Input G) (m : matcher) (w w1 : World G)
         (matchIndex : Z),
    locateListItem self m w = Done matchIndex w1 ->
    let later := integrationTypes.redraw (gui self) (app w1) in
    matchIndices m (integrationTypes.ViewBufferLines (gui self) (app w1)) 0
    = [matchIndex]
    /\ (exists before, trace w1 = before ++ [EvViewBufferLines])
    /\ viewSelectedLineIdx self w1
       = Done (integrationTypes.SelectedLineIdx (gui self) later)
           (emit EvSelectedLineIdx later w1)
    /\ NavigateToListItem self m w
       = moveSelection self m
           (integrationTypes.SelectedLineIdx (gui self) later) matchIndex
           (emit EvSelectedLineIdx later w1).
Proof.
  intros G self m w w1 matchIndex Hpoll later.
  destruct (locateListItem_done self m w w1 matchIndex Hpoll) as [Hone Hlast].
  repeat split; try assumption.
  unfold NavigateToListItem, bind. now rewrite Hpoll.
Qed.

Lemma selected_index_read_after_the_poll_witness :
  let self := Example.busyInput in
  let m := Example.containing "commit 01" in
  let w1 := {| app := {| Example.selected := 2; Example.queued := 1 |};
               trace := [EvAssert InListContext; EvCurrentContext;
                         EvViewBufferLines] |} in
  let later := integrationTypes.redraw (gui self) (app w1) in
  matchIndices m (integrationTypes.ViewBufferLines (gui self) (app w1)) 0 = [4]
  /\ (exists before, trace w1 = before ++ [EvViewBufferLines])
  /\ viewSelectedLineIdx self w1
     = Done (integrationTypes.SelectedLineIdx (gui self) later)
         (emit EvSelectedLineIdx later w1)
  /\ NavigateToListItem self m (Example.start 0 3)
     = moveSelection self m
         (integrationTypes.SelectedLineIdx (gui self) later) 4
         (emit EvSelectedLineIdx later w1).
Proof.
  intros self m w1.
  apply (selected_index_read_after_the_poll _ self m (Example.start 0 3) w1 4).
  reflexivity.
Defined.

(** C2 as stated fails.  The application is still drawing three moves
    down.  The poll finds the only match at index 4 in a snapshot whose
    selection is at index 2; the selected index is then read on its own,
    later, and is 3; one key is pressed, not the two that lead from 2
    to 4. *)
Lemma selected_index_not_of_the_snapshot_counterexample :
  let self := Example.busyInput in
  let m := Example.containing "commit 01" in
  let w := Example.start 0 3 in
  exists w1 w2 : World Example.Panel,
    locateListItem self m w = Done 4 w1
    /\ integrationTypes.ViewBufferLines (gui self) (app w1) = Example.commits
    /\ integrationTypes.SelectedLineIdx (gui self) (app w1) = 2
    /\ viewSelectedLineIdx self w1 = Done 3 w2
    /\ NavigateToListItem self m w = moveSelection self m 3 4 w2
    /\ presses (events_of (NavigateToListItem self m) w) = ["<down>"%string]
    /\ List.length (presses (events_of (NavigateToListItem self m) w))
       <> Z.to_nat (Z.abs (4 - 2)).
Proof.
  intros self m w.
  exists {| app := {| Example.selected := 2; Example.queued := 1 |};
            trace := [EvAssert InListContext; EvCurrentContext;
                      EvViewBufferLines] |},
         {| app := {| Example.selected := 3; Example.queued := 0 |};
            trace := [EvAssert InListContext; EvCurrentContext;
                      EvViewBufferLines; EvSelectedLineIdx] |}.
  repeat split; try reflexivity.
  vm_compute. discriminate.
Qed.

(** * Further properties of the facade *)

(** ** Keys pressed by the composite operations *)

Section Keys.

Context {G : Type}.
Variable self : Input G.

Local Abbreviation delay := (pushKeyDelay self).
Local Abbreviation universal := (config.Universal (keys self)).

Lemma press_runs (keyStr : string) (w : World G) :
  exists w', runs (press self keyStr) w tt
               [EvSleep delay; EvPressKey keyStr] w'.
Proof.
  eexists. split; [reflexivity|]. simpl. now rewrite <- app_assoc.
Qed.

Lemma alwaysPresses_press (keyStr : string) :
  alwaysPresses [keyStr] (press self keyStr).
Proof.
  intros w. destruct (press_runs keyStr w) as [w' Hrun].
  exists w', [EvSleep delay; EvPressKey keyStr]. now split.
Qed.

Lemma alwaysPresses_ret : alwaysPresses [] (ret (G := G) tt).
Proof.
  intros w. exists w, []. split; [|reflexivity].
  split; [reflexivity|now rewrite app_nil_r].
Qed.

Lemma alwaysPresses_bind (ks1 ks2 : list string) (c k : M G unit) :
  alwaysPresses ks1 c -> alwaysPresses ks2 k ->
  alwaysPresses (ks1 ++ ks2) (c ;; k).
Proof.
  intros Hc Hk w.
  destruct (Hc w) as [w1 [e1 [R1 P1]]].
  destruct (Hk w1) as [w2 [e2 [R2 P2]]].
  exists w2, (e1 ++ e2). split.
  - exact (runs_bind c (fun _ => k) _ _ _ _ _ _ _ R1 R2).
  - now rewrite presses_app, P1, P2.
Qed.

Lemma alwaysPresses_forEach {A : Type} (f : A -> string) (xs : list A) :
  alwaysPresses (map f xs) (forEach (fun x => press self (f x)) xs).
Proof.
  induction xs as [|x xs IH]; simpl.
  - apply alwaysPresses_ret.
  - apply (alwaysPresses_bind [f x] (map f xs)); [|exact IH].
    apply alwaysPresses_press.
Qed.

Lemma alwaysPresses_Press (keyStrs : list string) :
  alwaysPresses keyStrs (Press self keyStrs).
Proof.
  unfold Press. rewrite <- (map_id keyStrs) at 1.
  apply (alwaysPresses_forEach (fun keyStr => keyStr)).
Qed.

Lemma alwaysPresses_Type (content : string) :
  alwaysPresses (map string_of_rune (runes content)) (Type_ self content).
Proof. apply alwaysPresses_forEach. Qed.

Lemma keysPressed_always (ks : list string) (fs : list (list string))
    (c : M G unit) :
  alwaysPresses ks c -> keysPressed ks fs c.
Proof.
  intros Hc w. destruct (Hc w) as [w' [evs [[Hrun Htrace] Hkeys]]].
  exists evs. split.
  - unfold adds. now rewrite Hrun.
  - now rewrite Hrun.
Qed.

(** An assertion in front: when it fails nothing is pressed. *)
Lemma keysPressed_guard (a : assertion) (ks : list string)
    (fs : list (list string)) (k : M G unit) :
  keysPressed ks fs k -> keysPressed ks ([] :: fs) (assertThat self a ;; k).
Proof.
  intros Hk w.
  destruct (holds (assert self) a (app w)) as [g [reason|]] eqn:Hholds.
  - exists [EvAssert a]. unfold adds, bind, assertThat. rewrite Hholds.
    split; [reflexivity|]. simpl. now left.
  - destruct (Hk (emit (EvAssert a) g w)) as [evs [Hadds Hkeys]].
    exists (EvAssert a :: evs). unfold adds, bind, assertThat in *.
    rewrite Hholds. split.
    + rewrite Hadds. simpl. now rewrite <- app_assoc.
    + simpl presses.
      destruct (isDone (k (emit (EvAssert a) g w))); [exact Hkeys|now right].
Qed.

(** Keys that are always pressed in front. *)
Lemma keysPressed_after (ks1 ks : list string) (fs : list (list string))
    (c k : M G unit) :
  alwaysPresses ks1 c -> keysPressed ks fs k ->
  keysPressed (ks1 ++ ks) (map (fun f => ks1 ++ f) fs) (c ;; k).
Proof.
  intros Hc Hk w.
  destruct (Hc w) as [w1 [e1 [[Hrun Htrace] P1]]].
  destruct (Hk w1) as [e2 [Hadds Hkeys]].
  exists (e1 ++ e2). unfold adds, bind in *. rewrite Hrun. split.
  - now rewrite Hadds, Htrace, app_assoc.
  - rewrite presses_app, P1.
    destruct (isDone (k w1)); [now rewrite Hkeys|].
    now apply (in_map (fun f => ks1 ++ f)).
Qed.

Lemma keysPressed_events (ks : list string) (fs : list (list string))
    (c : M G unit) (w : World G) :
  keysPressed ks fs c ->
  if isDone (c w) then presses (events_of c w) = ks
  else In (presses (events_of c w)) fs.
Proof.
  intros Hc. destruct (Hc w) as [evs [Hadds Hkeys]].
  now rewrite (events_of_adds _ _ _ Hadds).
Qed.

Lemma keysPressed_confirmation (a1 a2 a3 : assertion) (keyStr : string) :
  keysPressed [keyStr] [[]; []; []]
    (assertThat self a1 ;; assertThat self a2 ;; assertThat self a3 ;;
     press self keyStr).
Proof.
  do 3 apply keysPressed_guard.
  apply keysPressed_always, alwaysPresses_press.
Qed.

Lemma keysPressed_Prompt (title : matcher) (textToType : string) :
  keysPressed
    (map string_of_rune (runes textToType) ++ [config.Confirm universal])
    [[]; []]
    (Prompt self title textToType).
Proof.
  unfold Prompt. do 2 apply keysPressed_guard.
  apply keysPressed_always, alwaysPresses_bind.
  - apply alwaysPresses_Type.
  - apply alwaysPresses_press.
Qed.

Lemma keysPressed_Typeahead (title : matcher) (textToType : string)
    (expectedFirstOption : matcher) :
  let typed := map string_of_rune (runes textToType) in
  keysPressed
    (typed ++ [config.TogglePanel universal; config.Confirm universal])
    [[]; []; typed ++ [config.TogglePanel universal];
     typed ++ [config.TogglePanel universal]]
    (Typeahead self title textToType expectedFirstOption).
Proof.
  intros typed. unfold Typeahead. do 2 apply keysPressed_guard.
  apply (keysPressed_after typed
           [config.TogglePanel universal; config.Confirm universal]
           [[config.TogglePanel universal]; [config.TogglePanel universal]]).
  { apply alwaysPresses_Type. }
  apply (keysPressed_after [config.TogglePanel universal]
           [config.Confirm universal] [[]; []]).
  { apply alwaysPresses_Press. }
  do 2 apply keysPressed_guard.
  apply keysPressed_always, alwaysPresses_press.
Qed.

Lemma keysPressed_ContinueMerge (Contains : string -> matcher) :
  keysPressed
    [config.CreateRebaseOptionsMenu universal; config.Confirm universal]
    [[config.CreateRebaseOptionsMenu universal]]
    (ContinueMerge self Contains).
Proof.
  unfold ContinueMerge.
  apply (keysPressed_after [config.CreateRebaseOptionsMenu universal]
           [config.Confirm universal] [[]]).
  - apply alwaysPresses_Press.
  - apply keysPressed_guard, keysPressed_always, alwaysPresses_press.
Qed.

End Keys.

Lemma In_empties (ks : list string) (n : nat) :
  In ks (repeat [] n) -> ks = [].
Proof. intros H. exact (repeat_spec _ _ _ H). Qed.

(** X1: [Press] presses the key strings it is given, in their order, each
    right after a sleep of the settle delay, and returns; with no key
    string it leaves the world as it is. *)
Theorem Press_presses_its_keys_in_order :
  forall (G : Type) (self : Input G) (keyStrs : list string) (w : World G),
    (exists w', Press self keyStrs w = Done tt w')
    /\ events_of (Press self keyStrs) w
       = flat_map (fun keyStr => [EvSleep (pushKeyDelay self);
                                  EvPressKey keyStr]) keyStrs
    /\ Press self [] w = Done tt w.
Proof.
  intros G self keyStrs w.
  assert (Hrun : exists w',
             runs (Press self keyStrs) w tt
               (flat_map (fun keyStr => [EvSleep (pushKeyDelay self);
                                         EvPressKey keyStr]) keyStrs) w').
  { revert w. induction keyStrs as [|keyStr keyStrs IH]; intros w.
    - exists w. split; [reflexivity|simpl; now rewrite app_nil_r].
    - destruct (press_runs self keyStr w) as [w1 R1].
      destruct (IH w1) as [w2 R2].
      exists w2. exact (runs_bind _ (fun _ => Press self keyStrs)
                          _ _ _ _ _ _ _ R1 R2). }
  destruct Hrun as [w' Hrun].
  split; [exists w'; exact (proj1 Hrun)|]. split; [|reflexivity].
  exact (events_of_adds _ _ _ (runs_adds _ _ _ _ _ Hrun)).
Qed.

(** X2: [AcceptConfirmation], [DenyConfirmation] and [Alert] press one
    key when they return (the key of confirm, of return and of confirm)
    and no key at all when one of their assertions fails. *)
Theorem confirmations_press_one_key_or_none :
  forall (G : Type) (self : Input G) (title content : matcher) (w : World G),
    presses (events_of (AcceptConfirmation self title content) w)
    = (if isDone (AcceptConfirmation self title content w)
       then [config.Confirm (config.Universal (keys self))] else [])
    /\ presses (events_of (DenyConfirmation self title content) w)
       = (if isDone (DenyConfirmation self title content w)
          then [config.Return (config.Universal (keys self))] else [])
    /\ presses (events_of (Alert self title content) w)
       = (if isDone (Alert self title content w)
          then [config.Confirm (config.Universal (keys self))] else []).
Proof.
  intros G self title content w.
  repeat split.
  - pose proof (keysPressed_events _ _ _ w
                  (keysPressed_confirmation self InConfirm
                     (CurrentViewTitle title) (CurrentViewContent content)
                     (config.Confirm (config.Universal (keys self))))) as H.
    fold (Confirm self) in H. fold (AcceptConfirmation self title content) in H.
    destruct (isDone _); [exact H|exact (In_empties _ 3 H)].
  - pose proof (keysPressed_events _ _ _ w
                  (keysPressed_confirmation self InConfirm
                     (CurrentViewTitle title) (CurrentViewContent content)
                     (config.Return (config.Universal (keys self))))) as H.
    fold (Cancel self) in H. fold (DenyConfirmation self title content) in H.
    destruct (isDone _); [exact H|exact (In_empties _ 3 H)].
  - pose proof (keysPressed_events _ _ _ w
                  (keysPressed_confirmation self InListContext
                     (CurrentViewTitle title) (CurrentViewContent content)
                     (config.Confirm (config.Universal (keys self))))) as H.
    fold (Confirm self) in H. fold (Alert self title content) in H.
    destruct (isDone _); [exact H|exact (In_empties _ 3 H)].
Qed.

(** X3: [Prompt] presses, when it returns, the characters of the text
    followed by the key of confirm; when an assertion fails it has pressed
    nothing. *)
Theorem Prompt_types_then_confirms :
  forall (G : Type) (self : Input G) (title : matcher) (textToType : string)
         (w : World G),
    presses (events_of (Prompt self title textToType) w)
    = (if isDone (Prompt self title textToType w)
       then map string_of_rune (runes textToType)
              ++ [config.Confirm (config.Universal (keys self))]
       else []).
Proof.
  intros G self title textToType w.
  pose proof (keysPressed_events _ _ _ w
                (keysPressed_Prompt self title textToType)) as H.
  destruct (isDone _); [exact H|exact (In_empties _ 2 H)].
Qed.

(** X4: [Typeahead] presses, when it returns, the characters of the text,
    the key of "toggle panel" and the key of confirm.  When it fails it has
    pressed nothing (the prompt was not as expected) or the text and
    "toggle panel" only: the key of confirm is not pressed unless the
    suggestions are showing with the expected first option selected. *)
Theorem Typeahead_confirms_only_the_expected_option :
  forall (G : Type) (self : Input G) (title : matcher) (textToType : string)
         (expectedFirstOption : matcher) (w : World G),
    let typed := map string_of_rune (runes textToType)
                   ++ [config.TogglePanel (config.Universal (keys self))] in
    let keysPressed :=
      presses (events_of
                 (Typeahead self title textToType expectedFirstOption) w) in
    if isDone (Typeahead self title textToType expectedFirstOption w)
    then keysPressed
         = typed ++ [config.Confirm (config.Universal (keys self))]
    else keysPressed = [] \/ keysPressed = typed.
Proof.
  intros G self title textToType expectedFirstOption w typed keysPressed.
  pose proof (keysPressed_events _ _ _ w
                (keysPressed_Typeahead self title textToType
                   expectedFirstOption)) as H.
  subst typed keysPressed.
  destruct (isDone _).
  - rewrite H, <- app_assoc. reflexivity.
  - destruct H as [<-|[<-|[<-|[<-|[]]]]]; auto.
Qed.

(** X5: [ContinueMerge], and [ContinueRebase] with it, presses the key
    that opens the rebase options menu and then, only when the selected
    line contains "continue", the key of confirm. *)
Theorem ContinueMerge_confirms_only_on_continue :
  forall (G : Type) (self : Input G) (Contains : string -> matcher)
         (w : World G),
    presses (events_of (ContinueMerge self Contains) w)
    = config.CreateRebaseOptionsMenu (config.Universal (keys self))
        :: (if isDone (ContinueMerge self Contains w)
            then [config.Confirm (config.Universal (keys self))] else [])
    /\ presses (events_of (ContinueRebase self Contains) w)
       = config.CreateRebaseOptionsMenu (config.Universal (keys self))
           :: (if isDone (ContinueRebase self Contains w)
               then [config.Confirm (config.Universal (keys self))] else [])
    /\ exists before after,
         events_of (ContinueMerge self Contains) w
         = before ++ EvAssert (SelectedLine (Contains "continue"%string)) :: after
         /\ presses before
            = [config.CreateRebaseOptionsMenu (config.Universal (keys self))].
Proof.
  intros G self Contains w.
  pose proof (keysPressed_events _ _ _ w
                (keysPressed_ContinueMerge self Contains)) as H.
  assert (Hkeys : presses (events_of (ContinueMerge self Contains) w)
                  = config.CreateRebaseOptionsMenu
                      (config.Universal (keys self))
                      :: (if isDone (ContinueMerge self Contains w)
                          then [config.Confirm (config.Universal (keys self))]
                          else [])).
  { destruct (isDone _); [exact H|]. destruct H as [<-|[]]. reflexivity. }
  split; [exact Hkeys|]. split; [exact Hkeys|].
  exists [EvSleep (pushKeyDelay self);
          EvPressKey (config.CreateRebaseOptionsMenu
                        (config.Universal (keys self)))].
  destruct (holds (assert self) (SelectedLine (Contains "continue"%string))
              (integrationTypes.PressKey (gui self)
                 (config.CreateRebaseOptionsMenu
                    (config.Universal (keys self)))
                 (integrationTypes.redraw (gui self)
                    (integrationTypes.elapse (gui self)
                       (pausedFor (pushKeyDelay self)) (app w)))))
    as [g [reason|]] eqn:Hholds.
  - exists []. split; [|reflexivity].
    apply events_of_adds.
    unfold adds, ContinueMerge, Press, Confirm, press, Wait, sleep,
      guiPressKey, assertThat, bind. simpl. rewrite Hholds. simpl.
    now rewrite <- !app_assoc.
  - exists [EvSleep (pushKeyDelay self);
            EvPressKey (config.Confirm (config.Universal (keys self)))].
    split; [|reflexivity].
    apply events_of_adds.
    unfold adds, ContinueMerge, Press, Confirm, press, Wait, sleep,
      guiPressKey, assertThat, bind. simpl. rewrite Hholds. simpl.
    now rewrite <- !app_assoc.
Qed.

(** ** What can panic *)

Section Panics.

Context {G : Type}.
Variable self : Input G.

Lemma neverPanics_bind {A B : Type} (c : M G A) (k : A -> M G B) :
  neverPanics c -> (forall a, neverPanics (k a)) -> neverPanics (bind c k).
Proof.
  intros Hc Hk w. unfold bind. specialize (Hc w).
  destruct (c w) as [a w'|reason w'|reason w']; simpl in *; auto.
  apply Hk.
Qed.

Lemma neverPanics_ret {A : Type} (a : A) : neverPanics (ret (G := G) a).
Proof. intros w. exact I. Qed.

Lemma neverPanics_press (keyStr : string) : neverPanics (press self keyStr).
Proof. intros w. exact I. Qed.

Lemma neverPanics_sleep (ms : Z) : neverPanics (sleep self ms).
Proof. intros w. exact I. Qed.

Lemma neverPanics_guiLogUI (message : string) :
  neverPanics (guiLogUI self message).
Proof. intros w. exact I. Qed.

Lemma neverPanics_assertThat (a : assertion) : neverPanics (assertThat self a).
Proof.
  intros w. unfold assertThat.
  destruct (holds (assert self) a (app w)) as [g [reason|]]; exact I.
Qed.

Lemma neverPanics_forEach {A : Type} (body : A -> M G unit) (xs : list A) :
  (forall x, neverPanics (body x)) -> neverPanics (forEach body xs).
Proof.
  intros Hbody. induction xs as [|x xs IH]; simpl.
  - apply neverPanics_ret.
  - apply neverPanics_bind; auto.
Qed.

Lemma neverPanics_Type (content : string) : neverPanics (Type_ self content).
Proof. apply neverPanics_forEach. intros x. apply neverPanics_press. Qed.

Lemma neverPanics_perform (Contains : string -> matcher) (i : intent) :
  indexesOrConverts i = false -> neverPanics (perform self Contains i).
Proof.
  destruct i; simpl; try discriminate; intros _;
    unfold Press, Confirm, Enter, Cancel, PrimaryAction, NextItem,
      PreviousItem, ContinueRebase, ContinueMerge, Press, Wait, LogUI, Log,
      AcceptConfirmation, DenyConfirmation, Prompt, Typeahead, Alert,
      Confirm, Cancel;
    repeat first
      [ apply neverPanics_press | apply neverPanics_sleep
      | apply neverPanics_guiLogUI | apply neverPanics_assertThat
      | apply neverPanics_Type
      | apply neverPanics_forEach; intros ?
      | apply neverPanics_bind; [|intros ?] ].
Qed.

End Panics.

(** X6: only the panel switches, [NavigateToListItem] and [Menu] (which
    calls it) can panic; every other operation of the facade returns or
    fails the test, whatever the application and the assertions do. *)
Theorem only_indexing_and_conversion_can_panic :
  forall (G : Type) (self : Input G) (Contains : string -> matcher)
         (i : intent) (w : World G),
    indexesOrConverts i = false ->
    inBounds (perform self Contains i w).
Proof.
  intros G self Contains i w Hi.
  exact (neverPanics_perform self Contains i Hi w).
Qed.

Lemma only_indexing_and_conversion_can_panic_witness :
  inBounds (perform Example.fourBlockInput Example.containing
              (DoTypeahead (Example.containing "Branch") "fix"
                 (Example.containing "fixup"))
              (Example.start 0 0)).
Proof.
  apply (only_indexing_and_conversion_can_panic _ Example.fourBlockInput
           Example.containing
           (DoTypeahead (Example.containing "Branch") "fix"
              (Example.containing "fixup"))
           (Example.start 0 0)).
  reflexivity.
Defined.

(** X7: a panel switch reads its own entry of [JumpToBlock] before
    anything else.  Where the family is too short it panics with the world
    untouched: no wait, no key press, no assertion.  Otherwise it presses
    that entry, once, after the settle delay, and then asserts the name of
    its window, and does nothing else. *)
Theorem panel_switch_presses_its_entry_or_panics_untouched :
  forall (G : Type) (self : Input G) (Contains : string -> matcher)
         (i : intent) (n : nat) (window : string) (w : World G),
    blockWindow i = Some (n, window) ->
    match nth_error (config.JumpToBlock (config.Universal (keys self))) n with
    | None =>
      perform self Contains i w = Panic "index out of range" w
    | Some keyStr =>
      events_of (perform self Contains i) w
      = [EvSleep (pushKeyDelay self); EvPressKey keyStr;
         EvAssert (CurrentWindowName window)]
    end.
Proof.
  intros G self Contains i n window w Hi.
  assert (Hswitch :
            perform self Contains i
            = (keyStr <- index (config.JumpToBlock
                                  (config.Universal (keys self))) n ;;
               press self keyStr ;;
               assertThat self (CurrentWindowName window))).
  { destruct i; try discriminate; injection Hi as <- <-; reflexivity. }
  rewrite Hswitch. unfold bind at 1. unfold index.
  destruct (nth_error _ n) as [keyStr|]; [|reflexivity].
  apply events_of_adds.
  unfold adds, bind, press, Wait, sleep, guiPressKey, assertThat. simpl.
  match goal with
  | |- context [holds ?a ?b ?c] => destruct (holds a b c) as [g [reason|]]
  end; simpl; now rewrite <- !app_assoc.
Qed.

Lemma panel_switch_presses_its_entry_or_panics_untouched_witness :
  perform Example.fourBlockInput Example.containing DoSwitchToStashWindow
    (Example.start 0 0)
  = Panic "index out of range" (Example.start 0 0).
Proof.
  apply (panel_switch_presses_its_entry_or_panics_untouched _
           Example.fourBlockInput Example.containing DoSwitchToStashWindow
           4%nat "stash" (Example.start 0 0)).
  reflexivity.
Defined.

(** ** The check of one attempt, both ways *)

(** X8: the check of an attempt succeeds exactly when one of the lines
    satisfies the matcher, and the index it leaves is the index of that
    line. *)
Theorem check_succeeds_exactly_on_one_match :
  forall (m : matcher) (lines : list string) (idx : Z),
    (exists reason, checkLines m lines = (idx, (true, reason)))
    <-> matchIndices m lines 0 = [idx].
Proof.
  intros m lines idx. split.
  - intros [reason H]. exact (checkLines_ok _ _ _ _ H).
  - intros H. exists EmptyString. exact (checkLines_unique _ _ _ H).
Qed.

Lemma check_succeeds_exactly_on_one_match_witness :
  matchIndices (Example.containing "commit 02") Example.commits 0 = [3].
Proof.
  apply (proj1 (check_succeeds_exactly_on_one_match
                  (Example.containing "commit 02") Example.commits 3)).
  exists EmptyString. reflexivity.
Defined.

(** X9: when the check of an attempt succeeds, its reason is empty and the
    index it leaves is a valid index of the lines read; the line there
    satisfies the matcher and is the only line that does. *)
Theorem successful_check_leaves_a_valid_index :
  forall (m : matcher) (lines : list string) (idx : Z) (reason : string),
    checkLines m lines = (idx, (true, reason)) ->
    reason = EmptyString
    /\ 0 <= idx < Z.of_nat (List.length lines)
    /\ exists line,
         nth_error lines (Z.to_nat idx) = Some line
         /\ fst (test m line) = true
         /\ matching m lines = [line].
Proof.
  intros m lines idx reason Hcheck.
  pose proof (checkLines_ok _ _ _ _ Hcheck) as Hone.
  rewrite (checkLines_unique _ _ _ Hone) in Hcheck.
  injection Hcheck as <-.
  destruct (matchIndices_In m lines 0 idx) as [Hrange [line [Hnth Htest]]].
  { rewrite Hone. now left. }
  rewrite Z.sub_0_r in Hnth.
  split; [reflexivity|]. split; [lia|].
  exists line. split; [exact Hnth|]. split; [exact Htest|].
  assert (Hin : In line (matching m lines)).
  { apply filter_In. split; [|exact Htest]. exact (nth_error_In _ _ Hnth). }
  pose proof (matchIndices_length m lines 0) as Hlen. rewrite Hone in Hlen.
  destruct (matching m lines) as [|l [|l' ls]]; try discriminate.
  destruct Hin as [->|[]]. reflexivity.
Qed.

Lemma successful_check_leaves_a_valid_index_witness :
  EmptyString = EmptyString
  /\ 0 <= 3 < Z.of_nat (List.length Example.commits)
  /\ exists line,
       nth_error Example.commits (Z.to_nat 3) = Some line
       /\ fst (test (Example.containing "commit 02") line) = true
       /\ matching (Example.containing "commit 02") Example.commits = [line].
Proof.
  apply (successful_check_leaves_a_valid_index
           (Example.containing "commit 02") Example.commits 3 EmptyString).
  reflexivity.
Defined.

(** ** Navigation, whatever the application does *)

Section AnyApplication.

Context {G : Type}.
Variable self : Input G.

Local Abbreviation universal := (config.Universal (keys self)).

Lemma alwaysPresses_times (n : nat) (keyStr : string) :
  alwaysPresses (repeat keyStr n) (times n (press self keyStr)).
Proof.
  induction n as [|n IH]; simpl.
  - apply alwaysPresses_ret.
  - apply (alwaysPresses_bind [keyStr] (repeat keyStr n)); [|exact IH].
    apply alwaysPresses_press.
Qed.

Lemma adds_assertThat (a : assertion) (w : World G) :
  adds (assertThat self a) w [EvAssert a].
Proof.
  unfold adds, assertThat.
  destruct (holds (assert self) a (app w)) as [g [reason|]]; reflexivity.
Qed.

Lemma adds_then_assertThat (c : M G unit) (a : assertion) (w w' : World G)
    (evs : list event) :
  runs c w tt evs w' -> adds (c ;; assertThat self a) w (evs ++ [EvAssert a]).
Proof.
  intros [Hrun Htrace]. unfold adds, bind. rewrite Hrun.
  now rewrite (adds_assertThat a w'), Htrace, app_assoc.
Qed.

(** From the two indices to the keys: only their difference counts. *)
Lemma moveSelection_adds (m : matcher) (s idx : Z) (w : World G) :
  exists evs,
    adds (moveSelection self m s idx) w (evs ++ [EvAssert (SelectedLine m)])
    /\ presses evs
       = repeat (if s <? idx then config.NextItem universal
                 else config.PrevItem universal)
           (Z.to_nat (Z.abs (idx - s))).
Proof.
  unfold moveSelection.
  destruct (Z.eqb_spec s idx) as [->|Hne].
  - exists []. split; [apply adds_assertThat|].
    now rewrite Z.sub_diag.
  - destruct (Z.ltb_spec s idx) as [Hlt|Hge].
    + destruct (alwaysPresses_times (Z.to_nat (idx - s))
                  (config.NextItem universal) w) as [w' [evs [Hrun Hkeys]]].
      exists evs. split.
      * exact (adds_then_assertThat _ _ _ _ _ Hrun).
      * rewrite Hkeys. f_equal. lia.
    + destruct (alwaysPresses_times (Z.to_nat (s - idx))
                  (config.PrevItem universal) w) as [w' [evs [Hrun Hkeys]]].
      exists evs. split.
      * exact (adds_then_assertThat _ _ _ _ _ Hrun).
      * rewrite Hkeys. f_equal. lia.
Qed.

(** Up to the end of the poll no key is pressed. *)
Lemma locateListItem_quiet (m : matcher) :
  emits (fun evs => presses evs = []) (locateListItem self m).
Proof.
  assert (Happ : forall e1 e2 : list event,
             presses e1 = [] -> presses e2 = [] -> presses (e1 ++ e2) = []).
  { intros e1 e2 H1 H2. now rewrite presses_app, H1, H2. }
  unfold locateListItem.
  apply emits_bind; [exact Happ| |intros _].
  { intros w. exists [EvAssert InListContext].
    split; [apply adds_assertThat|reflexivity]. }
  apply emits_bind; [exact Happ| |intros _].
  { intros w. exists [EvCurrentContext]. split; [|reflexivity].
    unfold adds, guiCurrentListContext.
    destruct (integrationTypes.CurrentContextIsList _ _); reflexivity. }
  unfold assertWithRetries.
  generalize EmptyString.
  induction (maxAttempts (assert self)) as [|n IH]; intros message; simpl.
  - intros w. exists []. split; [|reflexivity].
    unfold adds. simpl. now rewrite app_nil_r.
  - apply emits_bind; [exact Happ| |].
    { intros w. exists [EvViewBufferLines]. split; reflexivity. }
    intros [a [[|] reason]].
    + apply emits_ret. reflexivity.
    + apply emits_bind; [exact Happ| |intros _; apply IH].
      intros w. eexists [EvSleep _]. split; reflexivity.
Qed.

(** The events of a navigation whose poll has returned. *)
Lemma NavigateToListItem_adds (m : matcher) (w w1 : World G) (matchIndex : Z) :
  locateListItem self m w = Done matchIndex w1 ->
  let selectedLineIdx :=
    integrationTypes.SelectedLineIdx (gui self)
      (integrationTypes.redraw (gui self) (app w1)) in
  exists e1 e2,
    adds (NavigateToListItem self m) w
      ((e1 ++ [EvSelectedLineIdx] ++ e2) ++ [EvAssert (SelectedLine m)])
    /\ presses e1 = []
    /\ presses e2
       = repeat (if selectedLineIdx <? matchIndex
                 then config.NextItem universal
                 else config.PrevItem universal)
           (Z.to_nat (Z.abs (matchIndex - selectedLineIdx))).
Proof.
  intros Hpoll selectedLineIdx.
  destruct (locateListItem_quiet m w) as [e1 [Hadds1 Hquiet]].
  unfold adds in Hadds1. rewrite Hpoll in Hadds1. simpl in Hadds1.
  destruct (moveSelection_adds m selectedLineIdx matchIndex
              (emit EvSelectedLineIdx
                 (integrationTypes.redraw (gui self) (app w1)) w1))
    as [e2 [Hadds2 Hkeys]].
  exists e1, e2. split; [|split; assumption].
  unfold adds, NavigateToListItem, bind in *. rewrite Hpoll.
  unfold viewSelectedLineIdx. fold selectedLineIdx.
  rewrite Hadds2. simpl. rewrite Hadds1.
  now rewrite <- !app_assoc.
Qed.

End AnyApplication.

(** X10: whatever the application does, once the poll has found the match
    at [matchIndex], [NavigateToListItem] presses as many keys as the
    selected index it then reads is away from [matchIndex]: the key of
    "next item" only when that index is smaller, the key of "previous
    item" only when it is larger, none when they are equal.  Its last
    action is the assertion that the selected line satisfies the
    matcher. *)
Theorem navigation_presses_the_distance :
  forall (G : Type) (self : Input G) (m : matcher) (w w1 : World G)
         (matchIndex : Z),
    locateListItem self m w = Done matchIndex w1 ->
    let selectedLineIdx :=
      integrationTypes.SelectedLineIdx (gui self)
        (integrationTypes.redraw (gui self) (app w1)) in
    presses (events_of (NavigateToListItem self m) w)
    = repeat (if selectedLineIdx <? matchIndex
              then config.NextItem (config.Universal (keys self))
              else config.PrevItem (config.Universal (keys self)))
        (Z.to_nat (Z.abs (matchIndex - selectedLineIdx)))
    /\ exists before,
         events_of (NavigateToListItem self m) w
         = before ++ [EvAssert (SelectedLine m)].
Proof.
  intros G self m w w1 matchIndex Hpoll selectedLineIdx.
  destruct (NavigateToListItem_adds self m w w1 matchIndex Hpoll)
    as [e1 [e2 [Hadds [Hquiet Hkeys]]]].
  rewrite (events_of_adds _ _ _ Hadds). split.
  - rewrite !presses_app, Hquiet, Hkeys. simpl. now rewrite app_nil_r.
  - eexists. reflexivity.
Qed.

Lemma navigation_presses_the_distance_witness :
  let self := Example.busyInput in
  let m := Example.containing "commit 01" in
  let w1 := {| app := {| Example.selected := 2; Example.queued := 1 |};
               trace := [EvAssert InListContext; EvCurrentContext;
                         EvViewBufferLines] |} in
  let selectedLineIdx :=
    integrationTypes.SelectedLineIdx (gui self)
      (integrationTypes.redraw (gui self) (app w1)) in
  presses (events_of (NavigateToListItem self m) (Example.start 0 3))
  = repeat (if selectedLineIdx <? 4
            then config.NextItem (config.Universal (keys self))
            else config.PrevItem (config.Universal (keys self)))
      (Z.to_nat (Z.abs (4 - selectedLineIdx)))
  /\ exists before,
       events_of (NavigateToListItem self m) (Example.start 0 3)
       = before ++ [EvAssert (SelectedLine m)].
Proof.
  intros self m w1.
  apply (navigation_presses_the_distance _ self m (Example.start 0 3) w1 4).
  reflexivity.
Defined.

(** X11: [NavigateToListItem] presses no key unless its first part has
    returned: when the focused context is no list, or the poll has used up
    its attempts without finding exactly one match, the call does not
    return and the application has received no key. *)
Theorem navigation_presses_nothing_unless_located :
  forall (G : Type) (self : Input G) (m : matcher) (w : World G),
    isDone (locateListItem self m w) = false ->
    isDone (NavigateToListItem self m w) = false
    /\ presses (events_of (NavigateToListItem self m) w) = []
    /\ world_of (NavigateToListItem self m w)
       = world_of (locateListItem self m w).
Proof.
  intros G self m w Hfail.
  destruct (locateListItem_quiet self m w) as [evs [Hadds Hquiet]].
  assert (Hsame : NavigateToListItem self m w
                  = match locateListItem self m w with
                    | Done _ w' => NavigateToListItem self m w
                    | Fatal reason w' => Fatal reason w'
                    | Panic reason w' => Panic reason w'
                    end).
  { unfold NavigateToListItem, bind.
    destruct (locateListItem self m w); reflexivity. }
  unfold events_of. rewrite Hsame. unfold adds in Hadds.
  destruct (locateListItem self m w) as [idx w'|reason w'|reason w'];
    try discriminate; simpl in *;
    (split; [reflexivity|]; split; [|reflexivity];
     rewrite Hadds, skipn_app, skipn_all, Nat.sub_diag; exact Hquiet).
Qed.

Lemma navigation_presses_nothing_unless_located_witness :
  isDone (NavigateToListItem Example.restingInput
            (Example.containing "commit 9") (Example.start 0 0)) = false
  /\ presses (events_of
                (NavigateToListItem Example.restingInput
                   (Example.containing "commit 9")) (Example.start 0 0)) = []
  /\ world_of (NavigateToListItem Example.restingInput
                 (Example.containing "commit 9") (Example.start 0 0))
     = world_of (locateListItem Example.restingInput
                   (Example.containing "commit 9") (Example.start 0 0)).
Proof.
  apply (navigation_presses_nothing_unless_located _ Example.restingInput
           (Example.containing "commit 9") (Example.start 0 0)).
  reflexivity.
Defined.

(** X16: when [Menu] returns, the last things it did are the assertion
    that the selected line satisfies the option matcher, the wait of the
    settle delay and the press of the key of confirm, in that order: the
    option is confirmed right after it has been seen selected. *)
Theorem Menu_confirms_the_option_seen_selected :
  forall (G : Type) (self : Input G) (title optionToSelect : matcher)
         (w : World G),
    isDone (Menu self title optionToSelect w) = true ->
    exists before,
      events_of (Menu self title optionToSelect) w
      = before ++ [EvAssert (SelectedLine optionToSelect);
                   EvSleep (pushKeyDelay self);
                   EvPressKey (config.Confirm (config.Universal (keys self)))].
Proof.
  intros G self title optionToSelect w Hdone.
  unfold Menu in *.
  destruct (assertThat self InMenu w) as [[] wa|reason wa|reason wa] eqn:Ha;
    unfold bind at 1 in Hdone; rewrite Ha in Hdone; try discriminate.
  destruct (assertThat self (CurrentViewTitle title) wa)
    as [[] wb|reason wb|reason wb] eqn:Hb;
    unfold bind at 1 in Hdone; rewrite Hb in Hdone; try discriminate.
  destruct (NavigateToListItem self optionToSelect wb)
    as [[] wc|reason wc|reason wc] eqn:Hc;
    unfold bind at 1 in Hdone; rewrite Hc in Hdone; try discriminate.
  destruct (locateListItem self optionToSelect wb)
    as [matchIndex w1|reason w1|reason w1] eqn:Hpoll;
    try (unfold NavigateToListItem, bind in Hc; rewrite Hpoll in Hc;
         discriminate).
  destruct (NavigateToListItem_adds self optionToSelect wb w1 matchIndex Hpoll)
    as [e1 [e2 [Hadds _]]].
  unfold adds in Hadds. rewrite Hc in Hadds. simpl in Hadds.
  pose proof (adds_assertThat self InMenu w) as Hadds_a.
  pose proof (adds_assertThat self (CurrentViewTitle title) wa) as Hadds_b.
  unfold adds in Hadds_a, Hadds_b. rewrite Ha in Hadds_a. rewrite Hb in Hadds_b.
  simpl in Hadds_a, Hadds_b.
  exists ([EvAssert InMenu; EvAssert (CurrentViewTitle title)]
            ++ e1 ++ [EvSelectedLineIdx] ++ e2).
  apply events_of_adds. unfold adds, bind. rewrite Ha, Hb, Hc.
  unfold Confirm, press, Wait, sleep, guiPressKey, bind. simpl.
  rewrite Hadds, Hadds_b, Hadds_a. rewrite <- !app_assoc. reflexivity.
Qed.

Lemma Menu_confirms_the_option_seen_selected_witness :
  let title := Example.containing "Menu" in
  let option := Example.containing "commit 04" in
  exists before,
    events_of (Menu Example.restingInput title option) (Example.start 0 0)
    = before ++ [EvAssert (SelectedLine option);
                 EvSleep (pushKeyDelay Example.restingInput);
                 EvPressKey (config.Confirm
                               (config.Universal
                                  (keys Example.restingInput)))].
Proof.
  intros title option.
  apply (Menu_confirms_the_option_seen_selected _ Example.restingInput
           title option (Example.start 0 0)).
  reflexivity.
Defined.

(** ** Typing, byte by byte *)

Lemma concat_single_characters (chars : list ascii) :
  String.concat EmptyString (map (fun c => String c EmptyString) chars)
  = string_of_list_ascii chars.
Proof.
  induction chars as [|c chars IH]; [reflexivity|].
  simpl map. simpl string_of_list_ascii. rewrite <- IH.
  destruct chars; reflexivity.
Qed.

(** X12: on a text of ASCII characters [Type] presses the characters of
    the text, one key string of one character each, in order: put end to
    end, the keys pressed are the text. *)
Theorem Type_ascii_presses_the_text :
  forall (G : Type) (self : Input G) (content : string) (w : World G),
    Forall (fun c => byte_of c < 0x80) (list_ascii_of_string content) ->
    presses (events_of (Type_ self content) w)
    = map (fun c => String c EmptyString) (list_ascii_of_string content)
    /\ String.concat EmptyString (presses (events_of (Type_ self content) w))
       = content.
Proof.
  intros G self content w Hascii.
  destruct (alwaysPresses_Type self content w) as [w' [evs [Hrun Hkeys]]].
  rewrite (events_of_adds _ _ _ (runs_adds _ _ _ _ _ Hrun)), Hkeys.
  rewrite (Type_ascii_keys content Hascii).
  split; [reflexivity|].
  now rewrite concat_single_characters, string_of_list_ascii_of_string.
Qed.

Lemma Type_ascii_presses_the_text_witness :
  presses (events_of (Type_ Example.restingInput "fix") (Example.start 0 0))
  = map (fun c => String c EmptyString) (list_ascii_of_string "fix")
  /\ String.concat EmptyString
       (presses (events_of (Type_ Example.restingInput "fix")
                   (Example.start 0 0)))
     = "fix"%string.
Proof.
  apply (Type_ascii_presses_the_text _ Example.restingInput "fix"
           (Example.start 0 0)).
  repeat constructor.
Defined.

Lemma decodeRune_width (s : string) : (snd (decodeRune s) <= 4)%nat.
Proof.
  unfold decodeRune.
  repeat match goal with
         | |- context [match ?x with _ => _ end] => destruct x
         end; simpl; lia.
Qed.

Lemma runes_from_length (s : string) :
  forall skip : nat,
    (List.length (runes_from skip s) <= String.length s)%nat
    /\ (String.length s <= skip + 4 * List.length (runes_from skip s))%nat.
Proof.
  induction s as [|c t IH]; intros skip; [simpl; lia|].
  destruct skip as [|k].
  - cbn [runes_from].
    pose proof (decodeRune_width (String c t)) as Hwidth.
    destruct (decodeRune (String c t)) as [r width]. simpl in Hwidth.
    destruct (IH (width - 1)%nat) as [Hle Hge].
    simpl List.length. simpl String.length. lia.
  - cbn [runes_from]. destruct (IH k) as [Hle Hge].
    simpl String.length. lia.
Qed.

(** X13: [Type] presses at most one key per byte of the text and at least
    one key per four bytes; on the empty text it presses nothing. *)
Theorem Type_presses_within_the_length :
  forall (G : Type) (self : Input G) (content : string) (w : World G),
    let keysPressed := presses (events_of (Type_ self content) w) in
    (List.length keysPressed <= String.length content)%nat
    /\ (String.length content <= 4 * List.length keysPressed)%nat
    /\ presses (events_of (Type_ self EmptyString) w) = [].
Proof.
  intros G self content w keysPressed. subst keysPressed.
  destruct (alwaysPresses_Type self content w) as [w' [evs [Hrun Hkeys]]].
  rewrite (events_of_adds _ _ _ (runs_adds _ _ _ _ _ Hrun)), Hkeys.
  rewrite length_map.
  destruct (runes_from_length content 0) as [Hle Hge].
  repeat split; try assumption.
  destruct (alwaysPresses_Type self EmptyString w) as [w0 [e0 [Hrun0 Hkeys0]]].
  now rewrite (events_of_adds _ _ _ (runs_adds _ _ _ _ _ Hrun0)), Hkeys0.
Qed.

(** ** Encoding a rune and decoding it again *)

Lemma lor_low (x d n : Z) :
  0 <= n -> 0 <= d < 2 ^ n -> Z.lor (x * 2 ^ n) d = x * 2 ^ n + d.
Proof.
  intros Hn Hd.
  assert (Hland : Z.land (x * 2 ^ n) d = 0).
  { apply Z.bits_inj'. intros i Hi. rewrite Z.land_spec, Z.bits_0.
    destruct (Z.lt_ge_cases i n) as [Hlt|Hge].
    - now rewrite Z.mul_pow2_bits_low.
    - destruct (Z.eq_dec d 0) as [->|Hd0].
      + now rewrite Z.bits_0, andb_false_r.
      + rewrite (Z.bits_above_log2 d i), andb_false_r; [reflexivity|lia|].
        assert (Z.log2 d < n) by (apply Z.log2_lt_pow2; lia). lia. }
  now rewrite <- Z.lxor_lor, <- Z.add_nocarry_lxor.
Qed.

Lemma byte_of_char_of (b : Z) : 0 <= b < 256 -> byte_of (char_of b) = b.
Proof.
  intros Hb. unfold byte_of, char_of. rewrite N_ascii_embedding; lia.
Qed.

Lemma shiftr_6 (r : Z) : Z.shiftr r 6 = r / 64.
Proof. now rewrite Z.shiftr_div_pow2. Qed.

Lemma shiftr_12 (r : Z) : Z.shiftr r 12 = r / 4096.
Proof. now rewrite Z.shiftr_div_pow2. Qed.

Lemma shiftr_18 (r : Z) : Z.shiftr r 18 = r / 262144.
Proof. now rewrite Z.shiftr_div_pow2. Qed.

Lemma low6_mod (x : Z) : low6 x = x mod 64.
Proof. unfold low6. change 0x3F with (Z.ones 6). now rewrite Z.land_ones. Qed.

Lemma continuation_byte (x : Z) : Z.lor 0x80 (low6 x) = 128 + x mod 64.
Proof.
  rewrite low6_mod. change 0x80 with (2 * 2 ^ 6).
  rewrite lor_low; [reflexivity|lia|]. apply Z.mod_pos_bound. lia.
Qed.

Lemma low6_continuation_byte (x : Z) : low6 (128 + x mod 64) = x mod 64.
Proof. rewrite low6_mod. Z.div_mod_to_equations. lia. Qed.

Lemma lead_byte_2 (a : Z) :
  0 <= a < 32 -> Z.lor 0xC0 a = 192 + a /\ Z.land (192 + a) 0x1F = a.
Proof.
  intros Ha. split.
  - change 0xC0 with (6 * 2 ^ 5). rewrite lor_low; [reflexivity|lia|lia].
  - change 0x1F with (Z.ones 5). rewrite Z.land_ones by lia.
    change (2 ^ 5) with 32. Z.div_mod_to_equations. lia.
Qed.

Lemma lead_byte_3 (a : Z) :
  0 <= a < 16 -> Z.lor 0xE0 a = 224 + a /\ Z.land (224 + a) 0x0F = a.
Proof.
  intros Ha. split.
  - change 0xE0 with (14 * 2 ^ 4). rewrite lor_low; [reflexivity|lia|lia].
  - change 0x0F with (Z.ones 4). rewrite Z.land_ones by lia.
    change (2 ^ 4) with 16. Z.div_mod_to_equations. lia.
Qed.

Lemma lead_byte_4 (a : Z) :
  0 <= a < 8 -> Z.lor 0xF0 a = 240 + a /\ Z.land (240 + a) 0x07 = a.
Proof.
  intros Ha. split.
  - change 0xF0 with (30 * 2 ^ 3). rewrite lor_low; [reflexivity|lia|lia].
  - change 0x07 with (Z.ones 3). rewrite Z.land_ones by lia.
    change (2 ^ 3) with 8. Z.div_mod_to_equations. lia.
Qed.

Ltac decide_tests :=
  repeat (cbn [andb orb negb];
          match goal with
          | |- context [Z.leb ?a ?b] =>
            destruct (Z.leb_spec a b); try (Z.div_mod_to_equations; lia)
          | |- context [Z.ltb ?a ?b] =>
            destruct (Z.ltb_spec a b); try (Z.div_mod_to_equations; lia)
          | |- context [Z.eqb ?a ?b] =>
            destruct (Z.eqb_spec a b); try (Z.div_mod_to_equations; lia)
          end);
  cbn [andb orb negb].

(** Decoding well-formed sequences of two, three and four bytes. *)
Lemma decodeRune_2 (b0 b1 lo hi : Z) (rest : string) :
  0x80 <= b0 < 256 -> 0 <= b1 < 256 ->
  lead b0 = Some (2%nat, lo, hi) -> in_range lo hi b1 = true ->
  decodeRune (string_of_bytes [b0; b1] ++ rest)
  = (Z.lor (Z.shiftl (Z.land b0 0x1F) 6) (low6 b1), 2%nat).
Proof.
  intros H0 H1 Hlead Hb1.
  cbn [string_of_bytes fold_right String.append decodeRune].
  rewrite !byte_of_char_of by lia. rewrite Hlead, Hb1.
  destruct (Z.ltb_spec b0 0x80); [lia|reflexivity].
Qed.

Lemma decodeRune_3 (b0 b1 b2 lo hi : Z) (rest : string) :
  0x80 <= b0 < 256 -> 0 <= b1 < 256 -> 0 <= b2 < 256 ->
  lead b0 = Some (3%nat, lo, hi) -> in_range lo hi b1 = true ->
  in_range 0x80 0xBF b2 = true ->
  decodeRune (string_of_bytes [b0; b1; b2] ++ rest)
  = (Z.lor (Z.shiftl (Z.land b0 0x0F) 12)
       (Z.lor (Z.shiftl (low6 b1) 6) (low6 b2)), 3%nat).
Proof.
  intros H0 H1 H2 Hlead Hb1 Hb2.
  cbn [string_of_bytes fold_right String.append decodeRune].
  rewrite !byte_of_char_of by lia. rewrite Hlead, Hb1, Hb2.
  destruct (Z.ltb_spec b0 0x80); [lia|reflexivity].
Qed.

Lemma decodeRune_4 (b0 b1 b2 b3 lo hi : Z) (rest : string) :
  0x80 <= b0 < 256 -> 0 <= b1 < 256 -> 0 <= b2 < 256 -> 0 <= b3 < 256 ->
  lead b0 = Some (4%nat, lo, hi) -> in_range lo hi b1 = true ->
  in_range 0x80 0xBF b2 = true -> in_range 0x80 0xBF b3 = true ->
  decodeRune (string_of_bytes [b0; b1; b2; b3] ++ rest)
  = (Z.lor (Z.shiftl (Z.land b0 0x07) 18)
       (Z.lor (Z.shiftl (low6 b1) 12)
          (Z.lor (Z.shiftl (low6 b2) 6) (low6 b3))), 4%nat).
Proof.
  intros H0 H1 H2 H3 Hlead Hb1 Hb2 Hb3.
  cbn [string_of_bytes fold_right String.append decodeRune].
  rewrite !byte_of_char_of by lia. rewrite Hlead, Hb1, Hb2, Hb3.
  destruct (Z.ltb_spec b0 0x80); [lia|reflexivity].
Qed.

(** The lead byte of an encoding announces its length, and the second
    byte lies in the range that lead byte accepts. *)
Lemma lead_of_2 (r : Z) :
  0x80 <= r < 0x800 ->
  lead (192 + r / 64) = Some (2%nat, 0x80, 0xBF).
Proof. intros Hr. unfold lead, in_range. decide_tests. all: try reflexivity. Qed.

Lemma lead_of_3 (r : Z) :
  0x800 <= r < 0x10000 -> ~ 0xD800 <= r <= 0xDFFF ->
  exists lo hi,
    lead (224 + r / 4096) = Some (3%nat, lo, hi)
    /\ in_range lo hi (128 + (r / 64) mod 64) = true.
Proof.
  intros Hr Hsurrogate. unfold lead, in_range.
  decide_tests; eexists; eexists; (split; [reflexivity|]); decide_tests;
    try reflexivity.
Qed.

Lemma lead_of_4 (r : Z) :
  0x10000 <= r <= 0x10FFFF ->
  exists lo hi,
    lead (240 + r / 262144) = Some (4%nat, lo, hi)
    /\ in_range lo hi (128 + (r / 4096) mod 64) = true.
Proof.
  intros Hr. unfold lead, in_range.
  decide_tests; eexists; eexists; (split; [reflexivity|]); decide_tests;
    try reflexivity.
Qed.

Lemma continuation_in_range (x : Z) :
  in_range 0x80 0xBF (128 + x mod 64) = true.
Proof. unfold in_range. decide_tests. all: try reflexivity. Qed.

(** Decoding the encoding of a code point gives the code point back and
    the width of the encoding, whatever follows. *)
Lemma decodeRune_string_of_rune (r : Z) (rest : string) :
  validRune r = true ->
  decodeRune (string_of_rune r ++ rest)
  = (r, String.length (string_of_rune r))
  /\ (1 <= String.length (string_of_rune r))%nat.
Proof.
  intros Hvalid. unfold validRune, in_range in Hvalid.
  assert (Hr : 0 <= r <= 0x10FFFF /\ ~ 0xD800 <= r <= 0xDFFF).
  { revert Hvalid. decide_tests; intros; try discriminate; lia. }
  clear Hvalid. destruct Hr as [Hr Hsurrogate].
  unfold string_of_rune.
  assert (Hfirst : (r <? 0) || (0x10FFFF <? r) || in_range 0xD800 0xDFFF r
                   = false).
  { unfold in_range. decide_tests; reflexivity. }
  rewrite Hfirst.
  destruct (Z.ltb_spec r 0x80) as [H1|H1].
  { cbn [string_of_bytes fold_right String.append decodeRune String.length].
    rewrite byte_of_char_of by lia.
    destruct (Z.ltb_spec r 0x80); [|lia]. split; [reflexivity|lia]. }
  destruct (Z.ltb_spec r 0x800) as [H2|H2].
  { rewrite shiftr_6, continuation_byte.
    destruct (lead_byte_2 (r / 64)) as [Hlead Hmask];
      [Z.div_mod_to_equations; lia|].
    rewrite Hlead.
    rewrite (decodeRune_2 _ _ 0x80 0xBF);
      [|Z.div_mod_to_equations; lia|Z.div_mod_to_equations; lia
       |apply lead_of_2; lia|apply continuation_in_range].
    rewrite Hmask, low6_continuation_byte, Z.shiftl_mul_pow2 by lia.
    rewrite lor_low by (try lia; apply Z.mod_pos_bound; lia).
    split; [|cbn; lia]. f_equal. Z.div_mod_to_equations. lia. }
  destruct (Z.ltb_spec r 0x10000) as [H3|H3].
  { rewrite shiftr_12, shiftr_6, !continuation_byte.
    destruct (lead_byte_3 (r / 4096)) as [Hlead Hmask];
      [Z.div_mod_to_equations; lia|].
    rewrite Hlead.
    destruct (lead_of_3 r) as [lo [hi [Hlo Hhi]]]; [lia|exact Hsurrogate|].
    rewrite (decodeRune_3 _ _ _ lo hi);
      [|Z.div_mod_to_equations; lia|Z.div_mod_to_equations; lia
       |Z.div_mod_to_equations; lia|exact Hlo|exact Hhi
       |apply continuation_in_range].
    rewrite Hmask, !low6_continuation_byte, !Z.shiftl_mul_pow2 by lia.
    rewrite (lor_low _ (r mod 64)) by (try lia; apply Z.mod_pos_bound; lia).
    rewrite lor_low by (try lia; Z.div_mod_to_equations; lia).
    split; [|cbn; lia]. f_equal. Z.div_mod_to_equations. lia. }
  rewrite shiftr_18, shiftr_12, shiftr_6, !continuation_byte.
  destruct (lead_byte_4 (r / 262144)) as [Hlead Hmask];
    [Z.div_mod_to_equations; lia|].
  rewrite Hlead.
  destruct (lead_of_4 r) as [lo [hi [Hlo Hhi]]]; [lia|].
  rewrite (decodeRune_4 _ _ _ _ lo hi);
    [|Z.div_mod_to_equations; lia|Z.div_mod_to_equations; lia
     |Z.div_mod_to_equations; lia|Z.div_mod_to_equations; lia
     |exact Hlo|exact Hhi
     |apply continuation_in_range|apply continuation_in_range].
  rewrite Hmask, !low6_continuation_byte, !Z.shiftl_mul_pow2 by lia.
  rewrite (lor_low _ (r mod 64)) by (try lia; apply Z.mod_pos_bound; lia).
  rewrite (lor_low _ (_ + r mod 64)) by (try lia; Z.div_mod_to_equations; lia).
  rewrite lor_low by (try lia; Z.div_mod_to_equations; lia).
  split; [|cbn; lia]. f_equal. Z.div_mod_to_equations. lia.
Qed.

Lemma runes_from_skip (a rest : string) :
  runes_from (String.length a) (a ++ rest) = runes_from 0 rest.
Proof. induction a as [|c a IH]; [reflexivity|exact IH]. Qed.

(** The text that encodes the code points [rs], one after the other. *)
Lemma runes_encoded (rs : list Z) (rest : string) :
  Forall (fun r => validRune r = true) rs ->
  runes (fold_right (fun r acc => string_of_rune r ++ acc)%string rest rs)
  = rs ++ runes rest.
Proof.
  unfold runes. induction 1 as [|r rs Hr Hrs IH]; [reflexivity|].
  cbn [fold_right].
  set (tail := fold_right _ rest rs) in *.
  destruct (decodeRune_string_of_rune r tail Hr) as [Hdecode Hwidth].
  destruct (string_of_rune r) as [|c a] eqn:Henc; [simpl in Hwidth; lia|].
  cbn [String.append runes_from] in *.
  rewrite Hdecode. cbn [String.length Nat.sub].
  rewrite Nat.sub_0_r, runes_from_skip, IH. reflexivity.
Qed.

Lemma concat_encoded (rs : list Z) :
  String.concat EmptyString (map string_of_rune rs)
  = fold_right (fun r acc => string_of_rune r ++ acc)%string EmptyString rs.
Proof.
  induction rs as [|r rs IH]; [reflexivity|].
  cbn [map fold_right]. rewrite <- IH.
  destruct rs as [|r' rs]; [|reflexivity].
  cbn. clear IH. induction (string_of_rune r) as [|c s IHs];
    [reflexivity|cbn; now rewrite <- IHs].
Qed.

(** X14: on the UTF-8 encoding of any sequence of code points [Type]
    presses one key per code point, the encoding of that code point, in
    order: decoding undoes encoding, and the keys pressed, put end to end,
    are the text. *)
Theorem Type_utf8_presses_the_code_points :
  forall (G : Type) (self : Input G) (rs : list Z) (w : World G),
    Forall (fun r => validRune r = true) rs ->
    let content := String.concat EmptyString (map string_of_rune rs) in
    runes content = rs
    /\ presses (events_of (Type_ self content) w) = map string_of_rune rs
    /\ String.concat EmptyString (presses (events_of (Type_ self content) w))
       = content.
Proof.
  intros G self rs w Hvalid content.
  assert (Hrunes : runes content = rs).
  { subst content. rewrite concat_encoded, (runes_encoded rs EmptyString Hvalid).
    apply app_nil_r. }
  destruct (alwaysPresses_Type self content w) as [w' [evs [Hrun Hkeys]]].
  rewrite (events_of_adds _ _ _ (runs_adds _ _ _ _ _ Hrun)), Hkeys, Hrunes.
  repeat split; reflexivity.
Qed.

Lemma Type_utf8_presses_the_code_points_witness :
  let rs := [0x61; 0xE9; 0x20AC; 0x1F600] in
  let content := String.concat EmptyString (map string_of_rune rs) in
  runes content = rs
  /\ presses (events_of (Type_ Example.restingInput content)
                (Example.start 0 0))
     = map string_of_rune rs
  /\ String.concat EmptyString
       (presses (events_of (Type_ Example.restingInput content)
                   (Example.start 0 0)))
     = content.
Proof.
  intros rs.
  apply (Type_utf8_presses_the_code_points _ Example.restingInput rs
           (Example.start 0 0)).
  repeat constructor.
Defined.

Lemma string_of_rune_RuneError :
  string_of_rune RuneError = string_of_bytes [0xEF; 0xBF; 0xBD].
Proof. reflexivity. Qed.

Lemma runes_malformed (content : string) :
  Forall (fun c => 0x80 <= byte_of c /\ lead (byte_of c) = None)
    (list_ascii_of_string content) ->
  runes content = repeat RuneError (String.length content).
Proof.
  unfold runes.
  induction content as [|c t IH]; intros Hbad; [reflexivity|].
  inversion Hbad as [|c' l [Hhigh Hlead] Ht]; subst.
  cbn [runes_from decodeRune String.length repeat].
  rewrite Hlead.
  destruct (Z.ltb_spec (byte_of c) 0x80); [lia|].
  cbn [Nat.sub]. now rewrite (IH Ht).
Qed.

(** X15: a byte that cannot start a UTF-8 sequence (a continuation byte,
    0xC0, 0xC1, or 0xF5 and above) is not pressed as it is: for each such
    byte of the text [Type] presses the replacement character U+FFFD, the
    three bytes EF BF BD. *)
Theorem Type_replaces_malformed_bytes :
  forall (G : Type) (self : Input G) (content : string) (w : World G),
    Forall (fun c => 0x80 <= byte_of c /\ lead (byte_of c) = None)
      (list_ascii_of_string content) ->
    presses (events_of (Type_ self content) w)
    = repeat (string_of_bytes [0xEF; 0xBF; 0xBD]) (String.length content).
Proof.
  intros G self content w Hbad.
  destruct (alwaysPresses_Type self content w) as [w' [evs [Hrun Hkeys]]].
  rewrite (events_of_adds _ _ _ (runs_adds _ _ _ _ _ Hrun)), Hkeys.
  rewrite (runes_malformed content Hbad), map_repeat.
  now rewrite string_of_rune_RuneError.
Qed.

Lemma Type_replaces_malformed_bytes_witness :
  let content := string_of_bytes [0xFF; 0x80; 0xC0] in
  presses (events_of (Type_ Example.restingInput content) (Example.start 0 0))
  = repeat (string_of_bytes [0xEF; 0xBF; 0xBD]) (String.length content).
Proof.
  intros content.
  apply (Type_replaces_malformed_bytes _ Example.restingInput content
           (Example.start 0 0)).
  repeat constructor; vm_compute; congruence.
Defined.

(** ** The pace of key presses on the clock *)

Lemma pausedFor_nonneg (milliseconds : Z) : 0 <= pausedFor milliseconds.
Proof. unfold pausedFor. lia. Qed.

(** A delay whose nanoseconds fit [int64] is paused for in full. *)
Lemma pausedFor_in_range (milliseconds : Z) :
  0 <= milliseconds <= 9223372036854 ->
  pausedFor milliseconds = milliseconds * Millisecond.
Proof.
  intros Hrange. unfold pausedFor, durationOfMilliseconds, wrapInt64, Millisecond.
  change (2 ^ 63) with 9223372036854775808.
  change (2 ^ 64) with 18446744073709551616.
  rewrite Z.mod_small by lia. lia.
Qed.

Lemma spaced_earlier (interval from from' upTo : Z) (ts : list Z) :
  from <= from' -> spaced interval from' ts upTo -> spaced interval from ts upTo.
Proof.
  intros Hle H. inversion H; subst.
  - apply spaced_nil. lia.
  - apply spaced_cons; [lia|assumption].
Qed.

Lemma spaced_app (interval a b c : Z) (ts1 ts2 : list Z) :
  spaced interval a ts1 b -> spaced interval b ts2 c ->
  spaced interval a (ts1 ++ ts2) c.
Proof.
  induction 1 as [from upTo Hle|from t ts upTo Hstep Hrest IH]; intros H2; simpl.
  - exact (spaced_earlier _ _ _ _ _ Hle H2).
  - apply spaced_cons; auto.
Qed.

Create HintDb clock.

Section Clocked.

Context {G : Type}.
Variable self : Input G.
Variable Contains : string -> matcher.

Local Abbreviation interval := (pausedFor (pushKeyDelay self)).
Local Abbreviation clockedSelf := (withClock self).

Lemma timed_bind {A B : Type} (c : M (G * Clock) A) (k : A -> M (G * Clock) B) :
  timed interval c -> (forall a, timed interval (k a)) ->
  timed interval (bind c k).
Proof.
  intros Hc Hk w. destruct (Hc w) as [ts1 [Hat1 Hsp1]]. unfold bind.
  destruct (c w) as [a w1|reason w1|reason w1]; simpl in *.
  - destruct (Hk a w1) as [ts2 [Hat2 Hsp2]].
    exists (ts1 ++ ts2). split.
    + now rewrite Hat2, Hat1, app_assoc.
    + exact (spaced_app _ _ _ _ _ _ Hsp1 Hsp2).
  - exists ts1. now split.
  - exists ts1. now split.
Qed.

(** A step that does not touch the clock. *)
Lemma timed_still {A : Type} (c : M (G * Clock) A) :
  (forall w, clockOf (world_of (c w)) = clockOf w) -> timed interval c.
Proof.
  intros Hstill w. exists []. rewrite Hstill, app_nil_r.
  split; [reflexivity|]. apply spaced_nil. lia.
Qed.

Lemma timed_ret {A : Type} (a : A) : timed interval (ret (G := G * Clock) a).
Proof. apply timed_still. reflexivity. Qed.

Lemma timed_sleep (ms : Z) : timed interval (sleep clockedSelf ms).
Proof.
  intros w. exists []. simpl. rewrite app_nil_r. split; [reflexivity|].
  apply spaced_nil. pose proof (pausedFor_nonneg ms). unfold clockOf. lia.
Qed.

Lemma timed_press (keyStr : string) : timed interval (press clockedSelf keyStr).
Proof.
  intros w. exists [now (clockOf w) + interval]. simpl.
  split; [reflexivity|]. unfold clockOf.
  apply spaced_cons; [lia|].
  apply spaced_nil. lia.
Qed.

Lemma timed_guiLogUI (message : string) :
  timed interval (guiLogUI clockedSelf message).
Proof. apply timed_still. reflexivity. Qed.

Lemma timed_guiCurrentListContext :
  timed interval (guiCurrentListContext clockedSelf).
Proof.
  apply timed_still. intros w. unfold guiCurrentListContext.
  destruct (integrationTypes.CurrentContextIsList _ _); reflexivity.
Qed.

Lemma timed_viewViewBufferLines :
  timed interval (viewViewBufferLines clockedSelf).
Proof. apply timed_still. reflexivity. Qed.

Lemma timed_viewSelectedLineIdx :
  timed interval (viewSelectedLineIdx clockedSelf).
Proof. apply timed_still. reflexivity. Qed.

Lemma timed_assertThat (a : assertion) :
  timed interval (assertThat clockedSelf a).
Proof.
  apply timed_still. intros w. unfold assertThat, clockOf. simpl.
  destruct (holds (assert self) a (fst (app w))) as [g [reason|]]; reflexivity.
Qed.

Lemma timed_index (xs : list string) (i : nat) :
  timed interval (index (G := G * Clock) xs i).
Proof.
  apply timed_still. intros w. unfold index.
  destruct (nth_error xs i); reflexivity.
Qed.

Lemma timed_forEach {A : Type} (body : A -> M (G * Clock) unit) (xs : list A) :
  (forall x, timed interval (body x)) -> timed interval (forEach body xs).
Proof.
  intros Hbody. induction xs as [|x xs IH]; simpl.
  - apply timed_ret.
  - apply timed_bind; auto.
Qed.

Lemma timed_times (n : nat) (body : M (G * Clock) unit) :
  timed interval body -> timed interval (times n body).
Proof.
  intros Hbody. induction n as [|n IH]; simpl.
  - apply timed_ret.
  - apply timed_bind; auto.
Qed.

Lemma timed_retry {A : Type} (n : nat)
    (check : M (G * Clock) (A * (bool * string))) (message : string) :
  timed interval check -> timed interval (retry clockedSelf n check message).
Proof.
  intros Hcheck. revert message. induction n as [|n IH]; intros message; simpl.
  - apply timed_still. reflexivity.
  - apply timed_bind; [exact Hcheck|].
    intros [a [[|] reason]].
    + apply timed_ret.
    + apply timed_bind; [apply timed_sleep|auto].
Qed.

#[local] Hint Resolve timed_ret timed_sleep timed_press timed_guiLogUI
  timed_guiCurrentListContext timed_viewViewBufferLines
  timed_viewSelectedLineIdx timed_assertThat timed_index : clock.

Ltac clock :=
  repeat first
    [ solve [auto with clock]
    | apply timed_forEach; intros ?
    | apply timed_times
    | apply timed_retry
    | apply timed_bind; [|intros ?] ].

Lemma timed_Type (content : string) :
  timed interval (Type_ clockedSelf content).
Proof. unfold Type_. clock. Qed.

Lemma timed_NavigateToListItem (m : matcher) :
  timed interval (NavigateToListItem clockedSelf m).
Proof.
  unfold NavigateToListItem, locateListItem, assertWithRetries, findMatch,
    moveSelection, forUp, forDown, NextItem, PreviousItem.
  clock.
  destruct (_ =? _); [|destruct (_ <? _)]; clock.
Qed.

#[local] Hint Resolve timed_Type timed_NavigateToListItem : clock.

Lemma timed_perform (i : intent) :
  timed interval (perform clockedSelf Contains i).
Proof.
  destruct i; simpl; auto with clock;
    unfold Press, SwitchToStatusWindow, SwitchToFilesWindow,
      SwitchToBranchesWindow, SwitchToCommitsWindow, SwitchToStashWindow,
      Confirm, Enter, Cancel, PrimaryAction, NextItem, PreviousItem,
      ContinueRebase, ContinueMerge, Press, Wait, LogUI, Log,
      AcceptConfirmation, DenyConfirmation, Prompt, Typeahead, Menu, Alert,
      Confirm, Cancel;
    clock.
Qed.

End Clocked.

(** C6, as the code has it: whatever operation of the facade delivers a
    key press, the event just before the press is the call
    [Wait(pushKeyDelay)]; and for a settle delay from 0 to 9223372036854
    milliseconds, whose duration in nanoseconds fits [int64], that call
    pauses for the whole delay: on the clock of the application every key
    press comes at least [pushKeyDelay] milliseconds after the operation
    began and after the key press before it. *)
Theorem key_press_follows_settle_delay :
  forall (G : Type) (self : Input G) (Contains : string -> matcher)
         (i : intent),
    (forall (w : World G) (pre : list event) (keyStr : string)
            (post : list event),
        events_of (perform self Contains i) w
        = pre ++ EvPressKey keyStr :: post ->
        exists pre', pre = pre' ++ [EvSleep (pushKeyDelay self)])
    /\ (0 <= pushKeyDelay self <= 9223372036854 ->
        forall w : World (G * Clock),
          let w' := world_of (perform (withClock self) Contains i w) in
          exists ts,
            pressedAt (clockOf w') = pressedAt (clockOf w) ++ ts
            /\ spaced (pushKeyDelay self * Millisecond)
                 (now (clockOf w)) ts (now (clockOf w'))).
Proof.
  intros G self Contains i. split.
  - intros w pre keyStr post Heq.
    destruct (pace_perform self Contains i w) as [evs [Hadds Hpaced]].
    rewrite (events_of_adds _ _ _ Hadds) in Heq.
    exact (paced_split _ _ Hpaced _ _ _ Heq).
  - intros Hrange w w'. subst w'.
    rewrite <- (pausedFor_in_range _ Hrange).
    exact (timed_perform self Contains i w).
Qed.

Lemma key_press_follows_settle_delay_witness :
  (exists pre',
      [EvSleep 30; EvPressKey "a"; EvSleep 30]
      = pre' ++ [EvSleep (pushKeyDelay Example.restingInput)])
  /\ exists ts,
       pressedAt (clockOf (world_of
                             (perform (withClock Example.restingInput)
                                Example.containing (DoType "ab")
                                (startClock 0))))
       = pressedAt (clockOf (startClock 0)) ++ ts
       /\ spaced (pushKeyDelay Example.restingInput * Millisecond)
            (now (clockOf (startClock 0))) ts
            (now (clockOf (world_of
                             (perform (withClock Example.restingInput)
                                Example.containing (DoType "ab")
                                (startClock 0))))).
Proof.
  destruct (key_press_follows_settle_delay _ Example.restingInput
              Example.containing (DoType "ab")) as [Horder Htimes].
  split.
  - apply (Horder (Example.start 0 0)
             [EvSleep 30; EvPressKey "a"; EvSleep 30] "b"%string []).
    reflexivity.
  - apply (Htimes ltac:(simpl; lia) (startClock 0)).
Defined.

(** C6 as stated fails.  With a settle delay of 9223372036855
    milliseconds the duration handed to [time.Sleep] has wrapped around to
    a negative number and the call returns at once: the two keys of
    [Press("a", "b")] reach the application at the same time, with no wait
    before either. *)
Lemma key_press_without_wait_counterexample :
  let self := withClock hugeDelayInput in
  let w' := world_of (Press self ["a"; "b"]%string (startClock 0)) in
  0 < pushKeyDelay self
  /\ durationOfMilliseconds (pushKeyDelay self) < 0
  /\ pausedFor (pushKeyDelay self) = 0
  /\ pressedAt (clockOf w') = [0; 0]
  /\ now (clockOf w') = 0
  /\ ~ spaced (pushKeyDelay self * Millisecond) 0 (pressedAt (clockOf w'))
        (now (clockOf w')).
Proof.
  intros self w'.
  assert (Hat : pressedAt (clockOf w') = [0; 0]) by (vm_compute; reflexivity).
  repeat split; try (vm_compute; reflexivity).
  rewrite Hat. intros Hspaced. inversion Hspaced; subst.
  simpl in *. unfold Millisecond in *. lia.
Qed.

(** ** Navigation and an application that is not at rest *)

Lemma busy_assertionsPass : assertionsPass Example.busyInput.
Proof.
  split.
  - reflexivity.
  - intros m g line Hsel Hnth Htest. simpl in *.
    unfold Example.panelHolds. rewrite Hnth, Htest.
    destruct (Z.leb_spec 0 (Example.selected g)); [reflexivity|lia].
Qed.

Lemma busy_listKeys : listKeys Example.busyInput.
Proof.
  split; intros g Hroom; simpl in *.
  - unfold Example.pressKey. simpl.
    destruct (Z.ltb_spec (Example.selected g + 1) 5); [|lia].
    repeat split.
  - unfold Example.pressKey. simpl.
    destruct (Z.ltb_spec 0 (Example.selected g)); [|lia].
    repeat split.
Qed.


(** C5, as the code has it: when the poll has returned from a snapshot in
    which the selected index is the index of the unique match, and the
    application still shows that view when the selected index is read
    after the poll, [NavigateToListItem] presses no key and returns. *)
Theorem navigation_on_the_match_presses_nothing :
  forall (G : Type) (self : Input G) (m : matcher) (w w1 : World G)
         (matchIndex : Z),
    assertionsPass self ->
    locateListItem self m w = Done matchIndex w1 ->
    integrationTypes.SelectedLineIdx (gui self) (app w1) = matchIndex ->
    sameView self (app w1) (integrationTypes.redraw (gui self) (app w1)) ->
    exists w',
      NavigateToListItem self m w = Done tt w'
      /\ presses (events_of (NavigateToListItem self m) w) = [].
Proof.
  intros G self m w w1 matchIndex Hpass Hpoll Hselected Hsame.
  destruct (locateListItem_done self m w w1 matchIndex Hpoll) as [Hone _].
  destruct (matchIndices_In m
              (integrationTypes.ViewBufferLines (gui self) (app w1))
              0 matchIndex) as [Hrange [line [Hnth Htest]]].
  { rewrite Hone. now left. }
  rewrite Z.sub_0_r in Hnth.
  destruct Hsame as (_ & Hlines & Hsel).
  destruct (NavigateToListItem_adds self m w w1 matchIndex Hpoll)
    as [e1 [e2 [Hadds [Hquiet Hkeys]]]].
  rewrite Hsel, Hselected, Z.sub_diag in Hkeys. simpl in Hkeys.
  assert (Hholds : snd (holds (assert self) (SelectedLine m)
                          (integrationTypes.redraw (gui self) (app w1)))
                   = None).
  { apply (pass_SelectedLine self Hpass m _ line).
    - rewrite Hsel, Hselected. lia.
    - rewrite Hlines, Hsel, Hselected. exact Hnth.
    - exact Htest. }
  split with (x := world_of (NavigateToListItem self m w)). split.
  - unfold NavigateToListItem, bind. rewrite Hpoll.
    unfold viewSelectedLineIdx, moveSelection.
    rewrite Hsel, Hselected, Z.eqb_refl.
    unfold assertThat. cbn [app emit].
    destruct (holds (assert self) (SelectedLine m)
                (integrationTypes.redraw (gui self) (app w1)))
      as [g failure].
    simpl in Hholds. subst failure. reflexivity.
  - rewrite (events_of_adds _ _ _ Hadds).
    rewrite !presses_app, Hquiet, Hkeys. reflexivity.
Qed.

Lemma navigation_on_the_match_presses_nothing_witness :
  exists w',
    NavigateToListItem Example.restingInput (Example.containing "commit 02")
      (Example.start 3 0) = Done tt w'
    /\ presses (events_of
                  (NavigateToListItem Example.restingInput
                     (Example.containing "commit 02")) (Example.start 3 0))
       = [].
Proof.
  apply (navigation_on_the_match_presses_nothing _ Example.restingInput
           (Example.containing "commit 02") (Example.start 3 0)
           {| app := {| Example.selected := 3; Example.queued := 0 |};
              trace := [EvAssert InListContext; EvCurrentContext;
                        EvViewBufferLines] |}
           3).
  - split.
    + reflexivity.
    + intros m g line Hsel Hnth Htest. simpl in *.
      unfold Example.panelHolds. rewrite Hnth, Htest.
      destruct (Z.leb_spec 0 (Example.selected g)); [reflexivity|lia].
  - reflexivity.
  - reflexivity.
  - repeat split.
Defined.

(** C5 as stated fails on an application that is still drawing earlier
    moves.  The poll returns from a snapshot in which the selection is on
    the only match, at index 3; by the time the selected index is read the
    selection has moved to index 4, and a key is pressed. *)
Lemma navigation_on_the_match_of_a_busy_list_counterexample :
  let self := Example.busyInput in
  let m := Example.containing "commit 02" in
  let w := Example.start 1 3 in
  assertionsPass self
  /\ (exists w1, locateListItem self m w = Done 3 w1
                 /\ showing self Example.commits 3 w1
                 /\ matchIndices m Example.commits 0 = [3])
  /\ presses (events_of (NavigateToListItem self m) w) = ["<up>"%string]
  /\ presses (events_of (NavigateToListItem self m) w) <> [].
Proof.
  intros self m w.
  split; [exact busy_assertionsPass|]. split.
  { exists {| app := {| Example.selected := 3; Example.queued := 1 |};
              trace := [EvAssert InListContext; EvCurrentContext;
                        EvViewBufferLines] |}.
    split; [reflexivity|]. split; [repeat split|reflexivity]. }
  assert (Hkeys : presses (events_of (NavigateToListItem self m) w)
                  = ["<up>"%string]) by reflexivity.
  rewrite Hkeys. split; [reflexivity|discriminate].
Qed.

(** ** From the bytes back to the code points *)

Lemma byte_of_range (c : ascii) : 0 <= byte_of c < 256.
Proof. unfold byte_of. pose proof (N_ascii_bounded c). lia. Qed.

Lemma in_range_true (lo hi b : Z) : in_range lo hi b = true -> lo <= b <= hi.
Proof.
  unfold in_range. intros H. apply andb_true_iff in H as [H1 H2].
  apply Z.leb_le in H1. apply Z.leb_le in H2. lia.
Qed.

(** The rows of the table of lead bytes. *)
Lemma lead_cases (b0 : Z) (sz : nat) (lo hi : Z) :
  lead b0 = Some (sz, lo, hi) ->
  (sz = 2%nat /\ 0xC2 <= b0 <= 0xDF /\ lo = 0x80 /\ hi = 0xBF)
  \/ (sz = 3%nat /\ 0xE0 <= b0 <= 0xEF
      /\ lo = (if b0 =? 0xE0 then 0xA0 else 0x80)
      /\ hi = (if b0 =? 0xED then 0x9F else 0xBF))
  \/ (sz = 4%nat /\ 0xF0 <= b0 <= 0xF4
      /\ lo = (if b0 =? 0xF0 then 0x90 else 0x80)
      /\ hi = (if b0 =? 0xF4 then 0x8F else 0xBF)).
Proof.
  unfold lead, in_range.
  repeat (cbn [andb orb negb];
          match goal with
          | |- context [Z.leb ?a ?b] => destruct (Z.leb_spec a b)
          | |- context [Z.eqb ?a ?b] => destruct (Z.eqb_spec a b)
          end);
    cbn [andb orb negb]; intros Hlead; try discriminate;
    injection Hlead as <- <- <-;
    first [ left; repeat split; lia
          | right; left; repeat split; lia
          | right; right; repeat split; lia ].
Qed.

Lemma encode_2 (b0 b1 : Z) :
  0xC2 <= b0 <= 0xDF -> 0x80 <= b1 <= 0xBF ->
  let r := Z.lor (Z.shiftl (Z.land b0 0x1F) 6) (low6 b1) in
  validRune r = true /\ string_of_rune r = string_of_bytes [b0; b1].
Proof.
  intros H0 H1 r.
  assert (Hr : r = (b0 - 192) * 64 + (b1 - 128)).
  { subst r. change 0x1F with (Z.ones 5).
    rewrite Z.land_ones, low6_mod, Z.shiftl_mul_pow2 by lia.
    rewrite lor_low by (try lia; apply Z.mod_pos_bound; lia).
    change (2 ^ 5) with 32. change (2 ^ 6) with 64.
    Z.div_mod_to_equations. lia. }
  clearbody r.
  assert (Hdiv : r / 64 = b0 - 192) by (Z.div_mod_to_equations; lia).
  assert (Hmod : r mod 64 = b1 - 128) by (Z.div_mod_to_equations; lia).
  split.
  - unfold validRune, in_range. decide_tests. all: try reflexivity.
  - unfold string_of_rune, in_range. decide_tests.
    all: rewrite shiftr_6, continuation_byte, Hdiv, Hmod.
    all: destruct (lead_byte_2 (b0 - 192)) as [Hlead _]; [lia|].
    all: rewrite Hlead; repeat f_equal; lia.
Qed.

Lemma encode_3 (b0 b1 b2 : Z) :
  0xE0 <= b0 <= 0xEF ->
  (if b0 =? 0xE0 then 0xA0 else 0x80) <= b1
  <= (if b0 =? 0xED then 0x9F else 0xBF) ->
  0x80 <= b2 <= 0xBF ->
  let r := Z.lor (Z.shiftl (Z.land b0 0x0F) 12)
             (Z.lor (Z.shiftl (low6 b1) 6) (low6 b2)) in
  validRune r = true /\ string_of_rune r = string_of_bytes [b0; b1; b2].
Proof.
  intros H0 H1 H2 r.
  assert (H1' : 0x80 <= b1 <= 0xBF
                /\ (b0 = 0xE0 -> 0xA0 <= b1) /\ (b0 = 0xED -> b1 <= 0x9F)).
  { destruct (Z.eqb_spec b0 0xE0); destruct (Z.eqb_spec b0 0xED); lia. }
  clear H1. destruct H1' as (H1 & HE0 & HED).
  assert (Hr : r = (b0 - 224) * 4096 + (b1 - 128) * 64 + (b2 - 128)).
  { subst r. change 0x0F with (Z.ones 4).
    rewrite Z.land_ones, !low6_mod, !Z.shiftl_mul_pow2 by lia.
    rewrite (lor_low _ (b2 mod 64)) by (try lia; apply Z.mod_pos_bound; lia).
    rewrite lor_low by (try lia; Z.div_mod_to_equations; lia).
    change (2 ^ 4) with 16. change (2 ^ 6) with 64. change (2 ^ 12) with 4096.
    Z.div_mod_to_equations. lia. }
  clearbody r.
  assert (Hhigh : r / 4096 = b0 - 224) by (Z.div_mod_to_equations; lia).
  assert (Hmid : (r / 64) mod 64 = b1 - 128) by (Z.div_mod_to_equations; lia).
  assert (Hlow : r mod 64 = b2 - 128) by (Z.div_mod_to_equations; lia).
  split.
  - unfold validRune, in_range. decide_tests. all: try reflexivity.
  - unfold string_of_rune, in_range. decide_tests.
    all: rewrite shiftr_12, shiftr_6, !continuation_byte, Hhigh, Hmid, Hlow.
    all: destruct (lead_byte_3 (b0 - 224)) as [Hlead _]; [lia|].
    all: rewrite Hlead; repeat f_equal; lia.
Qed.

Lemma encode_4 (b0 b1 b2 b3 : Z) :
  0xF0 <= b0 <= 0xF4 ->
  (if b0 =? 0xF0 then 0x90 else 0x80) <= b1
  <= (if b0 =? 0xF4 then 0x8F else 0xBF) ->
  0x80 <= b2 <= 0xBF -> 0x80 <= b3 <= 0xBF ->
  let r := Z.lor (Z.shiftl (Z.land b0 0x07) 18)
             (Z.lor (Z.shiftl (low6 b1) 12)
                (Z.lor (Z.shiftl (low6 b2) 6) (low6 b3))) in
  validRune r = true /\ string_of_rune r = string_of_bytes [b0; b1; b2; b3].
Proof.
  intros H0 H1 H2 H3 r.
  assert (H1' : 0x80 <= b1 <= 0xBF
                /\ (b0 = 0xF0 -> 0x90 <= b1) /\ (b0 = 0xF4 -> b1 <= 0x8F)).
  { destruct (Z.eqb_spec b0 0xF0); destruct (Z.eqb_spec b0 0xF4); lia. }
  clear H1. destruct H1' as (H1 & HF0 & HF4).
  assert (Hr : r = (b0 - 240) * 262144 + (b1 - 128) * 4096
                   + (b2 - 128) * 64 + (b3 - 128)).
  { subst r. change 0x07 with (Z.ones 3).
    rewrite Z.land_ones, !low6_mod, !Z.shiftl_mul_pow2 by lia.
    rewrite (lor_low _ (b3 mod 64)) by (try lia; apply Z.mod_pos_bound; lia).
    rewrite (lor_low _ (_ + b3 mod 64))
      by (try lia; Z.div_mod_to_equations; lia).
    rewrite lor_low by (try lia; Z.div_mod_to_equations; lia).
    change (2 ^ 3) with 8. change (2 ^ 6) with 64.
    change (2 ^ 12) with 4096. change (2 ^ 18) with 262144.
    Z.div_mod_to_equations. lia. }
  clearbody r.
  assert (Htop : r / 262144 = b0 - 240) by (Z.div_mod_to_equations; lia).
  assert (Hhigh : (r / 4096) mod 64 = b1 - 128)
    by (Z.div_mod_to_equations; lia).
  assert (Hmid : (r / 64) mod 64 = b2 - 128) by (Z.div_mod_to_equations; lia).
  assert (Hlow : r mod 64 = b3 - 128) by (Z.div_mod_to_equations; lia).
  split.
  - unfold validRune, in_range. decide_tests. all: try reflexivity.
  - unfold string_of_rune, in_range. decide_tests.
    all: rewrite shiftr_18, shiftr_12, shiftr_6, !continuation_byte,
           Htop, Hhigh, Hmid, Hlow.
    all: destruct (lead_byte_4 (b0 - 240)) as [Hlead _]; [lia|].
    all: rewrite Hlead; repeat f_equal; lia.
Qed.

(** What the decoder does at a byte: either an encoding of a code point
    starts there, or the byte is malformed and decoded as [RuneError] of
    width 1. *)
Lemma decodeRune_sound (c : ascii) (t : string) :
  (exists r rest,
      validRune r = true /\ String c t = (string_of_rune r ++ rest)%string)
  \/ decodeRune (String c t) = (RuneError, 1%nat).
Proof.
  pose proof (byte_of_range c) as Hc.
  destruct (Z.ltb_spec (byte_of c) 0x80) as [Hlow|Hhigh].
  { left. exists (byte_of c), t. split.
    - unfold validRune, in_range. decide_tests. all: try reflexivity.
    - unfold string_of_rune, in_range. decide_tests.
      all: cbn [string_of_bytes fold_right String.append].
      all: now rewrite char_of_byte_of. }
  assert (Hfirst : (byte_of c <? 0x80) = false) by (apply Z.ltb_ge; lia).
  destruct (lead (byte_of c)) as [[[sz lo] hi]|] eqn:Hlead;
    [|right; cbn [decodeRune]; now rewrite Hfirst, Hlead].
  destruct t as [|c1 t1];
    [right; cbn [decodeRune]; now rewrite Hfirst, Hlead|].
  destruct (in_range lo hi (byte_of c1)) eqn:Hb1;
    [|right; cbn [decodeRune]; now rewrite Hfirst, Hlead, Hb1].
  pose proof (in_range_true _ _ _ Hb1) as Hr1.
  destruct (lead_cases _ _ _ _ Hlead)
    as [(-> & H0 & -> & ->)|[(-> & H0 & -> & ->)|(-> & H0 & -> & ->)]].
  - left. destruct (encode_2 _ _ H0 Hr1) as [Hvalid Henc].
    eexists. exists t1. split; [exact Hvalid|].
    rewrite Henc. cbn [string_of_bytes fold_right String.append].
    now rewrite !char_of_byte_of.
  - destruct t1 as [|c2 t2];
      [right; cbn [decodeRune]; now rewrite Hfirst, Hlead, Hb1|].
    destruct (in_range 0x80 0xBF (byte_of c2)) eqn:Hb2;
      [|right; cbn [decodeRune]; now rewrite Hfirst, Hlead, Hb1, Hb2].
    pose proof (in_range_true _ _ _ Hb2) as Hr2.
    left. destruct (encode_3 _ _ _ H0 Hr1 Hr2) as [Hvalid Henc].
    eexists. exists t2. split; [exact Hvalid|].
    rewrite Henc. cbn [string_of_bytes fold_right String.append].
    now rewrite !char_of_byte_of.
  - destruct t1 as [|c2 t2];
      [right; cbn [decodeRune]; now rewrite Hfirst, Hlead, Hb1|].
    destruct (in_range 0x80 0xBF (byte_of c2)) eqn:Hb2;
      [|right; cbn [decodeRune]; now rewrite Hfirst, Hlead, Hb1, Hb2].
    pose proof (in_range_true _ _ _ Hb2) as Hr2.
    destruct t2 as [|c3 t3];
      [right; cbn [decodeRune]; now rewrite Hfirst, Hlead, Hb1, Hb2|].
    destruct (in_range 0x80 0xBF (byte_of c3)) eqn:Hb3;
      [|right; cbn [decodeRune]; now rewrite Hfirst, Hlead, Hb1, Hb2, Hb3].
    pose proof (in_range_true _ _ _ Hb3) as Hr3.
    left. destruct (encode_4 _ _ _ _ H0 Hr1 Hr2 Hr3) as [Hvalid Henc].
    eexists. exists t3. split; [exact Hvalid|].
    rewrite Henc. cbn [string_of_bytes fold_right String.append].
    now rewrite !char_of_byte_of.
Qed.

Lemma string_length_append (a b : string) :
  String.length (a ++ b) = (String.length a + String.length b)%nat.
Proof. induction a as [|c a IH]; simpl; [reflexivity|now rewrite IH]. Qed.

Lemma append_inv_head (a b c : string) :
  (a ++ b)%string = (a ++ c)%string -> b = c.
Proof.
  induction a as [|x a IH]; simpl; intros H; [exact H|].
  injection H as H. auto.
Qed.

Lemma runes_step (r : Z) (rest : string) :
  validRune r = true ->
  runes (string_of_rune r ++ rest) = r :: runes rest.
Proof.
  intros Hvalid.
  exact (runes_encoded [r] rest (Forall_cons _ Hvalid (Forall_nil _))).
Qed.

Lemma runes_malformed_step (c : ascii) (t : string) :
  decodeRune (String c t) = (RuneError, 1%nat) ->
  runes (String c t) = RuneError :: runes t.
Proof.
  intros Hbad. unfold runes. cbn [runes_from]. now rewrite Hbad.
Qed.

(** Where the decoder reports a malformed byte no encoding starts. *)
Lemma no_encoding_starts (c : ascii) (t : string) :
  decodeRune (String c t) = (RuneError, 1%nat) ->
  forall r tail, validRune r = true ->
                 String c t <> (string_of_rune r ++ tail)%string.
Proof.
  intros Hbad r tail Hvalid Heq. rewrite Heq in Hbad.
  destruct (decodeRune_string_of_rune r tail Hvalid) as [Hdecode _].
  rewrite Hdecode in Hbad. injection Hbad as -> Hwidth.
  vm_compute in Hwidth. discriminate.
Qed.

(** The keys that [Type] presses are the characters of the text. *)
Lemma runes_characters (n : nat) :
  forall s : string,
    (String.length s <= n)%nat ->
    characters s (map string_of_rune (runes s)).
Proof.
  induction n as [|n IH]; intros s Hlen.
  - destruct s; [apply characters_nil|simpl in Hlen; lia].
  - destruct s as [|c t]; [apply characters_nil|].
    destruct (decodeRune_sound c t) as [[r [rest [Hvalid Heq]]]|Hbad].
    + rewrite Heq, (runes_step r rest Hvalid). cbn [map].
      apply characters_rune; [exact Hvalid|]. apply IH.
      destruct (decodeRune_string_of_rune r rest Hvalid) as [_ Hwidth].
      rewrite Heq, string_length_append in Hlen. lia.
    + rewrite (runes_malformed_step c t Hbad). cbn [map].
      change (string_of_rune RuneError) with replacementCharacter.
      apply characters_malformed; [exact (no_encoding_starts c t Hbad)|].
      apply IH. simpl in Hlen. lia.
Qed.

(** A text has its characters in one way only. *)
Lemma characters_functional (s : string) (keys : list string) :
  characters s keys -> forall keys', characters s keys' -> keys' = keys.
Proof.
  induction 1 as [|r rest keys Hvalid Hrest IH|c rest keys Hnone Hrest IH];
    intros keys' H'.
  - remember EmptyString as s eqn:Hs.
    destruct H' as [|r' rest' k' Hvalid' Hrest'|c' rest' k' Hnone' Hrest'].
    + reflexivity.
    + destruct (decodeRune_string_of_rune r' rest' Hvalid') as [_ Hwidth].
      apply (f_equal String.length) in Hs.
      rewrite string_length_append in Hs. simpl in Hs. lia.
    + discriminate.
  - remember (string_of_rune r ++ rest)%string as s eqn:Hs.
    destruct H' as [|r' rest' k' Hvalid' Hrest'|c' rest' k' Hnone' Hrest'].
    + destruct (decodeRune_string_of_rune r rest Hvalid) as [_ Hwidth].
      apply (f_equal String.length) in Hs.
      rewrite string_length_append in Hs. simpl in Hs. lia.
    + destruct (decodeRune_string_of_rune r rest Hvalid) as [Hd _].
      destruct (decodeRune_string_of_rune r' rest' Hvalid') as [Hd' _].
      rewrite <- Hs, Hd' in Hd. injection Hd as -> _.
      apply append_inv_head in Hs. subst rest'.
      now rewrite (IH _ Hrest').
    + exfalso. exact (Hnone' r rest Hvalid Hs).
  - remember (String c rest) as s eqn:Hs.
    destruct H' as [|r' rest' k' Hvalid' Hrest'|c' rest' k' Hnone' Hrest'].
    + discriminate.
    + exfalso. exact (Hnone r' rest' Hvalid' eq_refl).
    + injection Hs as -> ->. now rewrite (IH _ Hrest').
Qed.

